(** * ytmdl/metadata.py: the metadata ranking pipeline

    A shallow embedding of [ytmdl/metadata.py]: the ranker [_search_tokens],
    the filter [filterSongs], the pool builder [_extend_to_be_sorted_and_rest]
    and the driver [SEARCH_SONG], followed by the properties that the
    specification states about them.

    Conventions
    - Python [str] is [string], the text in UTF-8.  [str.lower()] and
      [str.split()] depend on the Unicode tables of the interpreter: they are
      the fields [lower] and [split] of the class [Builtins].  The other
      built-ins used by the source look for ASCII characters only and are
      defined on the bytes ([join], [re_sub_parens], [re_sub_amp], [split_T]).
    - Python [float] is the kernel's binary64 [float]; the literals 0.65, 0.3,
      0.05 and 0.7 denote the nearest binary64 value, as they do in Python.
    - An exception is a value of [exn]; fallible code returns [result].
    - Helpers imported from [ytmdl.stringutils], from [unidecode] and from
      the configuration are not part of this file's source: they are the
      fields of the classes [Imports], [Providers] and [Hashing], and every
      property holds for all their instances and for all instances of
      [Builtins].  Concrete stand-ins, written from the specification (for
      the built-ins: their restriction to ASCII text), are used to run the
      model on explicit inputs. *)

From Stdlib Require Import ZArith Floats String Ascii Uint63.
From stdpp Require Import base list gmap strings sorting.

Set Warnings "-inexact-float,-clear-no-such-hyp".
Set Default Proof Using "Type".
Local Open Scope string_scope.
Local Open Scope list_scope.

(** ** Exceptions and results *)

Inductive exn : Type :=
| ValueError      (* datetime.strptime on a malformed date *)
| AttributeError  (* None.split *)
| IndexError.     (* list index out of range *)

Inductive result (A : Type) : Type :=
| Ok (a : A)
| Raise (e : exn).
Arguments Ok {A} a.
Arguments Raise {A} e.

Definition rbind {A B : Type} (m : result A) (k : A → result B) : result B :=
  match m with
  | Ok a => k a
  | Raise e => Raise e
  end.

Notation "'let!' x ':=' m 'in' k" := (rbind m (λ x, k))
  (at level 10, x name, m at level 100, k at level 200, only parsing).

(** ** Python string built-ins *)

(** [str.lower()] lower-cases every cased character of Unicode and
    [str.split()] cuts at every run of Unicode whitespace: what they return
    is fixed by the interpreter, not by the program. *)
Class Builtins : Type := {
  lower : string → string;
  split : string → list string
}.

(** *** The two built-ins on ASCII text

    The stand-ins that run the model on explicit inputs: they agree with
    Python on text whose cased characters and blanks are ASCII. *)

Definition is_upper (c : ascii) : bool :=
  (65 <=? nat_of_ascii c)%nat && (nat_of_ascii c <=? 90)%nat.

Definition lower_char (c : ascii) : ascii :=
  if is_upper c then ascii_of_nat (nat_of_ascii c + 32) else c.

(** [str.lower()] on ASCII letters; other bytes are kept. *)
Fixpoint lower_ascii (s : string) : string :=
  match s with
  | EmptyString => EmptyString
  | String c s' => String (lower_char c) (lower_ascii s')
  end.

(** The ASCII characters [str.split()] treats as separators: tab, newline,
    vertical tab, form feed, carriage return, the four separators 28..31 and
    space. *)
Definition is_space (c : ascii) : bool :=
  let n := nat_of_ascii c in
  ((9 <=? n)%nat && (n <=? 13)%nat) || ((28 <=? n)%nat && (n <=? 32)%nat).

Definition flush (cur : string) : list string :=
  match cur with
  | EmptyString => []
  | _ => [cur]
  end.

Fixpoint split_from (s cur : string) : list string :=
  match s with
  | EmptyString => flush cur
  | String c s' =>
      if is_space c then flush cur ++ split_from s' EmptyString
      else split_from s' (cur +:+ String c EmptyString)
  end.

(** [str.split()] with no argument, for ASCII blanks: maximal runs of
    non-blank characters. *)
Definition split_ascii (s : string) : list string := split_from s EmptyString.

Definition ascii_builtins : Builtins := {| lower := lower_ascii; split := split_ascii |}.

(** *** Built-ins that look for ASCII characters only *)

(** [' '.join(tokens)] *)
Fixpoint join (tokens : list string) : string :=
  match tokens with
  | [] => EmptyString
  | [t] => t
  | t :: rest => t +:+ " " +:+ join rest
  end.

(** [re.sub(r'\([^)]*\)', '', s)]: every leftmost span from an opening
    parenthesis to the first closing one after it is deleted; an opening
    parenthesis that is never closed stays, with the text after it.
    [pending] holds the text read since an unmatched opening parenthesis. *)
Fixpoint re_sub_parens_from (s : string) (pending : option string) : string :=
  match s with
  | EmptyString =>
      match pending with
      | None => EmptyString
      | Some buf => buf
      end
  | String c s' =>
      match pending with
      | None =>
          if Ascii.eqb c "(" then re_sub_parens_from s' (Some "(")
          else String c (re_sub_parens_from s' None)
      | Some buf =>
          if Ascii.eqb c ")" then re_sub_parens_from s' None
          else re_sub_parens_from s' (Some (buf +:+ String c EmptyString))
      end
  end.

Definition re_sub_parens (s : string) : string := re_sub_parens_from s None.

(** [re.sub(r'&', 'and', s)] *)
Fixpoint re_sub_amp (s : string) : string :=
  match s with
  | EmptyString => EmptyString
  | String c s' =>
      if Ascii.eqb c "&" then "and" +:+ re_sub_amp s'
      else String c (re_sub_amp s')
  end.

(** [s.split('T')[0]]: the text before the first capital T. *)
Fixpoint split_T (s : string) : string :=
  match s with
  | EmptyString => EmptyString
  | String c s' => if Ascii.eqb c "T" then EmptyString else String c (split_T s')
  end.

(** Truthiness of a Python string. *)
Definition nonempty (s : string) : bool :=
  match s with
  | EmptyString => false
  | _ => true
  end.

(** ** [datetime.strptime] for the three formats the ranker uses *)

Record datetime : Type := mk_datetime { dt_year : nat; dt_month : nat; dt_day : nat }.

Inductive date_format : Type :=
| fmt_Y      (* "%Y" *)
| fmt_Ym     (* "%Y-%m" *)
| fmt_Ymd.   (* "%Y-%m-%d" *)

Definition digit (c : ascii) : option nat :=
  let n := nat_of_ascii c in
  if (48 <=? n)%nat && (n <=? 57)%nat then Some (n - 48) else None.

(** [%Y] is exactly four digits. *)
Definition parse_Y (l : list ascii) : option (nat * list ascii) :=
  match l with
  | a :: b :: c :: d :: rest =>
      match digit a, digit b, digit c, digit d with
      | Some a, Some b, Some c, Some d => Some (1000 * a + 100 * b + 10 * c + d, rest)
      | _, _, _, _ => None
      end
  | _ => None
  end.

(** The two-digit alternatives of a directive, tried before the one-digit one. *)
Definition parse_two (ok : nat → nat → bool) (l : list ascii) : option (nat * list ascii) :=
  match l with
  | c1 :: c2 :: rest =>
      match digit c1, digit c2 with
      | Some d1, Some d2 => if ok d1 d2 then Some (10 * d1 + d2, rest) else None
      | _, _ => None
      end
  | _ => None
  end.

Definition parse_one (l : list ascii) : option (nat * list ascii) :=
  match l with
  | c1 :: rest =>
      match digit c1 with
      | Some d1 => if (1 <=? d1)%nat then Some (d1, rest) else None
      | None => None
      end
  | [] => None
  end.

(** [%m] is [1[0-2]|0[1-9]|[1-9]]. *)
Definition parse_m (l : list ascii) : option (nat * list ascii) :=
  match parse_two (λ d1 d2, ((d1 =? 1)%nat && (d2 <=? 2)%nat) || ((d1 =? 0)%nat && (1 <=? d2)%nat)) l with
  | Some r => Some r
  | None => parse_one l
  end.

(** [%d] is [3[0-1]|[1-2]\d|0[1-9]|[1-9]| [1-9]]. *)
Definition parse_d (l : list ascii) : option (nat * list ascii) :=
  match parse_two (λ d1 d2, ((d1 =? 3)%nat && (d2 <=? 1)%nat)
                            || ((1 <=? d1)%nat && (d1 <=? 2)%nat)
                            || ((d1 =? 0)%nat && (1 <=? d2)%nat)) l with
  | Some r => Some r
  | None =>
      match parse_one l with
      | Some r => Some r
      | None =>
          match l with
          | c :: rest => if Ascii.eqb c " " then parse_one rest else None
          | [] => None
          end
      end
  end.

Definition expect_dash (l : list ascii) : option (list ascii) :=
  match l with
  | c :: rest => if Ascii.eqb c "-" then Some rest else None
  | [] => None
  end.

Definition is_leap (y : nat) : bool :=
  (y mod 4 =? 0)%nat && (negb (y mod 100 =? 0)%nat || (y mod 400 =? 0)%nat).

Definition days_in_month (y m : nat) : nat :=
  match m with
  | 2 => if is_leap y then 29 else 28
  | 4 | 6 | 9 | 11 => 30
  | _ => 31
  end.

(** The [datetime] constructor: years start at 1, the day exists in the month. *)
Definition make_datetime (y m d : nat) : option datetime :=
  if (1 <=? y)%nat && (1 <=? m)%nat && (m <=? 12)%nat && (1 <=? d)%nat && (d <=? days_in_month y m)%nat
  then Some (mk_datetime y m d) else None.

(** [datetime.strptime(s, fmt)]; [None] stands for the [ValueError] raised
    when the text does not match the format, when text remains after the
    match, or when the date does not exist. *)
Definition strptime (s : string) (fmt : date_format) : option datetime :=
  match parse_Y (list_ascii_of_string s) with
  | None => None
  | Some (y, r1) =>
      match fmt with
      | fmt_Y => match r1 with [] => make_datetime y 1 1 | _ => None end
      | fmt_Ym =>
          match expect_dash r1 with
          | None => None
          | Some r2 =>
              match parse_m r2 with
              | Some (m, []) => make_datetime y m 1
              | _ => None
              end
          end
      | fmt_Ymd =>
          match expect_dash r1 with
          | None => None
          | Some r2 =>
              match parse_m r2 with
              | None => None
              | Some (m, r3) =>
                  match expect_dash r3 with
                  | None => None
                  | Some r4 =>
                      match parse_d r4 with
                      | Some (d, []) => make_datetime y m d
                      | _ => None
                      end
                  end
              end
          end
      end
  end.

(** [date1 > date2] on [datetime] values. *)
Definition datetime_gt (a b : datetime) : bool :=
  (dt_year b <? dt_year a)%nat
  || ((dt_year a =? dt_year b)%nat
      && ((dt_month b <? dt_month a)%nat
          || ((dt_month a =? dt_month b)%nat && (dt_day b <? dt_day a)%nat))).

(** ** Candidate records and scored tuples *)

(** One metadata result of a provider.  [release_date] may be [None]. *)
Record Song : Type := mk_song {
  track_name : string;
  artist_name : string;
  collection_name : string;
  release_date : option string
}.

(** The tuple [(song_back, dist, albumDist, artistDist, weightedDist)]. *)
Record scored : Type := mk_scored {
  sc_song : Song;
  sc_dist : float;
  sc_albumDist : float;
  sc_artistDist : float;
  sc_weightedDist : float
}.

(** What [_search_tokens] leaves in a slot of [res]: the scored tuple itself,
    or the record taken out of it. *)
Inductive entry : Type :=
| Tuple (t : scored)
| Plain (s : Song).

Definition entry_song (e : entry) : Song :=
  match e with
  | Tuple t => sc_song t
  | Plain s => s
  end.

(** [release_date is None or release_date == ""] *)
Definition date_missing (s : Song) : bool :=
  match release_date s with
  | None => true
  | Some d => negb (nonempty d)
  end.

(** [song.release_date = song.release_date.split('T')[0]] *)
Definition set_release_date (s : Song) (d : string) : Song :=
  {| track_name := track_name s; artist_name := artist_name s;
     collection_name := collection_name s; release_date := Some d |}.

(** ** Sort keys: tuples of floats *)

Definition sort_key (x : scored) : float * float * float * float :=
  (sc_weightedDist x, sc_albumDist x, sc_artistDist x, sc_dist x).

(** Python's [<] on two 4-tuples of floats: the first position where the
    tuples differ (by [==]) decides, by [<] there; equal tuples are not less. *)
Definition key_ltb (a b : float * float * float * float) : bool :=
  let '(a1, a2, a3, a4) := a in
  let '(b1, b2, b3, b4) := b in
  if negb (a1 =? b1)%float then (a1 <? b1)%float
  else if negb (a2 =? b2)%float then (a2 <? b2)%float
  else if negb (a3 =? b3)%float then (a3 <? b3)%float
  else if negb (a4 =? b4)%float then (a4 <? b4)%float
  else false.

(** [x] enters an already sorted list in front of the first element that is
    not strictly greater: equal keys keep the order in which they arrived. *)
Fixpoint insert_desc (x : scored) (l : list scored) : list scored :=
  match l with
  | [] => [x]
  | y :: l' =>
      if key_ltb (sort_key x) (sort_key y) then y :: insert_desc x l'
      else x :: y :: l'
  end.

(** [res.sort(key=lambda x: (x[4], x[2], x[3], x[1]), reverse=True)]: a
    stable sort, greatest key first. *)
Definition sort_desc (res : list scored) : list scored := foldr insert_desc [] res.

(** A float that is not a NaN: the only floats that differ from themselves. *)
Definition not_nan (x : float) : bool := (x =? x)%float.

(** No component of the key is a NaN. *)
Definition key_ok (x : scored) : bool :=
  not_nan (sc_weightedDist x) && not_nan (sc_albumDist x)
  && not_nan (sc_artistDist x) && not_nan (sc_dist x).

(** [a] may stand before [b] in a list sorted from the greatest key down:
    its weighted distance is greater, or the two are equal and the album
    distance decides, then the artist distance, then the title distance. *)
Definition key_ge (a b : scored) : Prop :=
  (sc_weightedDist b <? sc_weightedDist a)%float = true
  ∨ ((sc_weightedDist a =? sc_weightedDist b)%float = true
     ∧ ((sc_albumDist b <? sc_albumDist a)%float = true
        ∨ ((sc_albumDist a =? sc_albumDist b)%float = true
           ∧ ((sc_artistDist b <? sc_artistDist a)%float = true
              ∨ ((sc_artistDist a =? sc_artistDist b)%float = true
                 ∧ ((sc_dist b <? sc_dist a)%float = true
                    ∨ (sc_dist a =? sc_dist b)%float = true)))))).

(** *** The order of floats, for the proofs *)

(** Lexicographic combination of two comparisons. *)
Definition lexc (c1 c2 : comparison) : comparison :=
  match c1 with
  | Eq => c2
  | _ => c1
  end.

(** A comparison function that behaves as that of a total preorder. *)
Record order_cmp {A : Type} (cmp : A → A → comparison) : Prop := {
  oc_antisym : ∀ x y, cmp y x = CompOpp (cmp x y);
  oc_eq_l : ∀ x y z, cmp x y = Eq → cmp x z = cmp y z;
  oc_trans : ∀ x y z c, cmp x y = c → cmp y z = c → cmp x z = c
}.

(** The place of a float that is not a NaN in the order of [<] and [==]:
    sign class, then exponent, then mantissa. *)
Definition sf_rank (f : spec_float) : Z * Z * Z :=
  match f with
  | S754_nan => (0, 0, 0)
  | S754_zero _ => (0, 0, 0)
  | S754_infinity s => (if s then -2 else 2, 0, 0)
  | S754_finite s m e => if s then (-1, - e, Z.neg m) else (1, e, Z.pos m)
  end%Z.

Definition rank (x : float) : Z * Z * Z := sf_rank (Prim2SF x).

Definition rank_cmp (x y : float) : comparison :=
  lexc ((rank x).1.1 ?= (rank y).1.1)%Z
       (lexc ((rank x).1.2 ?= (rank y).1.2)%Z ((rank x).2 ?= (rank y).2)%Z).

Definition sf_nan (f : spec_float) : bool :=
  match f with
  | S754_nan => true
  | _ => false
  end.

Definition key_cmp (a b : scored) : comparison :=
  lexc (rank_cmp (sc_weightedDist a) (sc_weightedDist b))
    (lexc (rank_cmp (sc_albumDist a) (sc_albumDist b))
       (lexc (rank_cmp (sc_artistDist a) (sc_artistDist b))
          (rank_cmp (sc_dist a) (sc_dist b)))).

(** ** Stand-ins for the helpers that live outside this file *)

(** Modelled from the spec: [ytmdl.stringutils.remove_multiple_spaces] is not
    in the source at hand; the specification says it collapses runs of
    whitespace to one space. *)
Fixpoint collapse_from (s : string) (in_run : bool) : string :=
  match s with
  | EmptyString => EmptyString
  | String c s' =>
      if is_space c then
        if in_run then collapse_from s' true else String " " (collapse_from s' true)
      else String c (collapse_from s' false)
  end.

Definition remove_multiple_spaces_model (s : string) : string := collapse_from s false.

(** Modelled from the spec: the stopword list of [ytmdl.stringutils] is not in
    the source at hand; the specification names "the", "feat" and "ft". *)
Definition stopwords_model : list string := ["the"; "feat"; "ft"].

(** Modelled from the spec: [ytmdl.stringutils.remove_stopwords] is not in the
    source at hand; the specification says it strips the stopwords. *)
Definition remove_stopwords_model (s : string) : string :=
  join (filter (λ w, w ∉ stopwords_model) (split_ascii s)).

Definition is_punct (c : ascii) : bool :=
  let n := nat_of_ascii c in
  ((33 <=? n)%nat && (n <=? 47)%nat) || ((58 <=? n)%nat && (n <=? 64)%nat)
  || ((91 <=? n)%nat && (n <=? 96)%nat) || ((123 <=? n)%nat && (n <=? 126)%nat).

(** Modelled from the spec: [ytmdl.stringutils.remove_punct] is not in the
    source at hand; the specification says it strips punctuation characters. *)
Fixpoint remove_punct_model (s : string) : string :=
  match s with
  | EmptyString => EmptyString
  | String c s' => if is_punct c then remove_punct_model s' else String c (remove_punct_model s')
  end.

Definition float_of_nat (n : nat) : float := of_uint63 (Uint63.of_Z (Z.of_nat n)).

(** Modelled from the spec: [ytmdl.stringutils.compute_jaccard] is not in the
    source at hand; the specification says it is the size of the intersection
    of the two token sets over the size of their union, and 0 when both are
    empty. *)
Definition compute_jaccard_model (tokens1 tokens2 : list string) : float :=
  let union := remove_dups (tokens1 ++ tokens2) in
  let intersect := filter (λ t, t ∈ tokens2) (remove_dups tokens1) in
  match union with
  | [] => 0%float
  | _ => (float_of_nat (length intersect) / float_of_nat (length union))%float
  end.

(** A fragment of [unidecode]'s table: ASCII is left as it is and the letter
    e with an acute accent (the two bytes 195 169 of its UTF-8 form) becomes
    a plain e. *)
Fixpoint unidecode_sample (s : string) : string :=
  match s with
  | EmptyString => EmptyString
  | String c s' =>
      match s' with
      | String c' s'' =>
          if (nat_of_ascii c =? 195)%nat && (nat_of_ascii c' =? 169)%nat
          then String "e" (unidecode_sample s'')
          else String c (unidecode_sample s')
      | EmptyString => String c EmptyString
      end
  end.

(** ** [filterSongs] and [_extend_to_be_sorted_and_rest] *)

(** The body of the loop of [filterSongs]: [filters[0]] and [filters[1]] are
    read for every song, whatever the length of [filters]. *)
Fixpoint filter_loop (data : list Song) (filters : list (option string))
    (new_tuple rest : list Song) : result (list Song * list Song) :=
  match data with
  | [] => Ok (new_tuple, rest)
  | songData :: data' =>
      match filters !! 0%nat with
      | None => Raise IndexError
      | Some f0 =>
          let artistMatch :=
            match f0 with
            | Some a => String.eqb (artist_name songData) a
            | None => true
            end in
          match filters !! 1%nat with
          | None => Raise IndexError
          | Some f1 =>
              let albumMatch :=
                match f1 with
                | Some a => String.eqb (collection_name songData) a
                | None => true
                end in
              if artistMatch && albumMatch
              then filter_loop data' filters (new_tuple ++ [songData]) rest
              else filter_loop data' filters new_tuple (rest ++ [songData])
          end
      end
  end.

Definition filterSongs (data : option (list Song)) (filters : list (option string))
    : result (option (list Song)) :=
  match data with
  | None => Ok None
  | Some data =>
      let! parts := filter_loop data filters [] [] in
      Ok (Some (parts.1 ++ parts.2))
  end.

(** Truthiness of a Python list. *)
Definition truthy {A : Type} (l : list A) : bool :=
  match l with
  | [] => false
  | _ => true
  end.

(** The two lists are extended in place; the model returns them. *)
Definition _extend_to_be_sorted_and_rest (provider_data : option (list Song))
    (to_be_sorted rest : list Song) (filters : list (option string))
    : result (list Song * list Song) :=
  let! provider_data :=
    (if truthy filters then filterSongs provider_data filters else Ok provider_data) in
  match provider_data with
  | Some d => Ok (to_be_sorted ++ d, rest ++ d)
  | None => Ok (to_be_sorted, rest)
  end.

(** ** Query variants *)

(** The prefixes and the window derived from one token list; the block
    appears twice in [SEARCH_SONG], for [search_by] and for [yt_title]. *)
Definition expansions (tokens : list string) : list string :=
  if (3 <? length tokens)%nat then
    (if (5 <? length tokens)%nat then [join (take 5 tokens)] else [])
    ++ [join (take 3 tokens); join (take 2 tokens); join (take 1 tokens);
        join (take 2 (drop 2 tokens))]
  else [].

Definition search_by_query_names_array {builtins : Builtins} (search_by yt_title : string)
    : list string :=
  [search_by] ++ expansions (split search_by)
  ++ (if String.eqb yt_title search_by then [] else expansions (split yt_title)).

(** [set(search_by_query_names_array)] *)
Definition query_variants {builtins : Builtins} (search_by yt_title : string)
    : gset string :=
  list_to_set (search_by_query_names_array search_by yt_title).

(** ** Control of the promotion loop *)

Inductive control : Type := Next | Break.

(** The format chosen from the length of the whole release date. *)
Definition format_for (d : string) : date_format :=
  if (String.length d =? 7)%nat then fmt_Ym
  else if (String.length d =? 4)%nat then fmt_Y
  else fmt_Ymd.

(** [res[0], res[i] = res[i], res[0]] *)
Definition swap_top (res : list scored) (i : nat) (top cur : scored) : list scored :=
  <[i := top]> (<[0%nat := cur]> res).

Definition promote_body (i : nat) (st : list scored * float)
    : result (control * (list scored * float)) :=
  let '(res, first_item_weighted_dist) := st in
  match res !! 0%nat, res !! i with
  | Some top, Some cur =>
      let first_item_weighted_dist :=
        if date_missing (sc_song top) then (sc_weightedDist cur * 0.7)%float
        else first_item_weighted_dist in
      if (sc_weightedDist cur <? first_item_weighted_dist)%float
      then Ok (Break, (res, first_item_weighted_dist))
      else if negb (date_missing (sc_song cur)) && negb (date_missing (sc_song top)) then
        match release_date (sc_song top), release_date (sc_song cur) with
        | Some d0, Some di =>
            match strptime (split_T d0) (format_for d0) with
            | None => Raise ValueError
            | Some date1 =>
                match strptime (split_T di) (format_for di) with
                | None => Raise ValueError
                | Some date2 =>
                    if datetime_gt date1 date2
                    then Ok (Next, (swap_top res i top cur, first_item_weighted_dist))
                    else Ok (Next, (res, first_item_weighted_dist))
                end
            end
        | _, _ => Ok (Next, (res, first_item_weighted_dist))
        end
      else if date_missing (sc_song top)
      then Ok (Next, (swap_top res i top cur, first_item_weighted_dist))
      else Ok (Next, (res, first_item_weighted_dist))
  | _, _ => Raise IndexError
  end.

(** [for i in range(0, len(res))]: nothing happens at index 0 nor from index
    10 on; [break] leaves the loop. *)
Fixpoint promote_loop (indices : list nat) (st : list scored * float)
    : result (list scored * float) :=
  match indices with
  | [] => Ok st
  | i :: indices' =>
      if (i <? 10)%nat then
        if (i =? 0)%nat then promote_loop indices' st
        else
          match promote_body i st with
          | Raise e => Raise e
          | Ok (Break, st') => Ok st'
          | Ok (Next, st') => promote_loop indices' st'
          end
      else promote_loop indices' st
  end.

(** The release-date pass, lines 212-236. *)
Definition promote (res : list scored) : result (list scored) :=
  match res with
  | [] => Ok []
  | top :: _ =>
      let! st := promote_loop (seq 0 (length res)) (res, (sc_weightedDist top * 0.7)%float) in
      Ok st.1
  end.

(** The last loop, lines 239-248: slot [i] receives the record of its tuple,
    with the release date cut at the time separator; the first slot is
    skipped when its record has no release date. *)
Fixpoint final_pass_from (i : nat) (res : list scored) : result (list entry) :=
  match res with
  | [] => Ok []
  | x :: res' =>
      if date_missing (sc_song x) && (i =? 0)%nat then
        let! tl := final_pass_from (S i) res' in
        Ok (Tuple x :: tl)
      else
        match release_date (sc_song x) with
        | None => Raise AttributeError
        | Some d =>
            let! tl := final_pass_from (S i) res' in
            Ok (Plain (set_release_date (sc_song x) (split_T d)) :: tl)
        end
  end.

Definition final_pass (res : list scored) : result (list entry) := final_pass_from 0 res.

(** What the last loop does to a record that has a release date. *)
Definition cut_date (s : Song) : Song :=
  match release_date s with
  | Some d => set_release_date s (split_T d)
  | None => s
  end.

(** A release date the ranker can work with: a string, empty or readable by
    [strptime] in the format its length selects. *)
Definition date_ok (s : Song) : bool :=
  match release_date s with
  | None => false
  | Some d => negb (nonempty d) || bool_decide (is_Some (strptime (split_T d) (format_for d)))
  end.

(** The release date of [a] reads as a day strictly before that of [b]. *)
Definition released_before (a b : scored) : Prop :=
  ∃ da db Da Db,
    release_date (sc_song a) = Some da ∧ release_date (sc_song b) = Some db
    ∧ strptime (split_T da) (format_for da) = Some Da
    ∧ strptime (split_T db) (format_for db) = Some Db
    ∧ datetime_gt Db Da = true.

(** What [SEARCH_SONG] hands back: whether the critical message "No metadata
    provider in the configuration is implemented" was logged on the way, and
    the value returned ([None], or the list). *)
Record report : Type := mk_report {
  critical_logged : bool;
  returned : option (list entry)
}.

(** The state of the aggregation loops of [SEARCH_SONG]. *)
Record pool : Type := mk_pool {
  to_be_sorted : list Song;
  rest : list Song;
  broken_provider_counter : nat
}.

(** ** Small definitions for the statements *)

(** A song passes the two filters. *)
Definition filter_matches (f0 f1 : option string) (songData : Song) : bool :=
  match f0 with
  | Some a => String.eqb (artist_name songData) a
  | None => true
  end
  && match f1 with
     | Some a => String.eqb (collection_name songData) a
     | None => true
     end.

(** The variants drawn from the title hint: none when the hint is the
    query itself. *)
Definition hint_variants {builtins : Builtins} (search_by yt_title : string)
    : gset string :=
  if String.eqb yt_title search_by then ∅
  else list_to_set (expansions (split yt_title)).

(** A provider result that the test [if data_provider:] rejects. *)
Definition no_data (r : option (list Song)) : Prop := r = None ∨ r = Some [].

(** [for x in l: st = body(x, st)], stopping at the first exception. *)
Fixpoint for_each {A S : Type} (body : A → S → result S) (l : list A) (st : S)
    : result S :=
  match l with
  | [] => Ok st
  | a :: l' => let! st' := body a st in for_each body l' st'
  end.

(** ** What [metadata.py] imports *)

(** The text helpers of [ytmdl.stringutils], [unidecode.unidecode] and the
    sensitivity [preconfig.CONFIG().SEARCH_SENSITIVITY]. *)
Class Imports : Type := {
  unidecode : string → string;
  remove_multiple_spaces : string → string;
  remove_punct : string → string;
  remove_stopwords : string → string;
  compute_jaccard : list string → list string → float;
  SEARCH_SENSITIVITY : float
}.

(** The configured names [defaults.DEFAULT.METADATA_PROVIDERS], the provider
    clients [get_from_itunes] ... [get_from_spotify] (each returns a list of
    records, or [None] after a logged failure), and the order in which Python
    walks a set of strings. *)
Class Providers : Type := {
  METADATA_PROVIDERS : list string;
  get_from_itunes : string → option (list Song);
  get_from_gaana : string → option (list Song);
  get_from_deezer : string → option (list Song);
  get_from_saavn : string → option (list Song);
  get_from_lastfm : string → option (list Song);
  get_from_musicbrainz : string → option (list Song);
  get_from_spotify : string → option (list Song);
  set_order : gset string → list string
}.

(** The [hash()] method of the provider records. *)
Class Hashing (H : Type) `{Countable H} : Type := {
  hash : Song → H
}.

(** ** The ranker *)

Section Ranker.
Context {builtins : Builtins} {imports : Imports}.

(** Lines 140-143 and 148-151: the query and the title hint. *)
Definition query_text (s : string) : string :=
  remove_punct (remove_stopwords (lower (remove_multiple_spaces (unidecode s)))).

(** Lines 157-165, repeated at 179-187 and 193-201: a field of a record. *)
Definition provider_text (s : string) : string :=
  unidecode (remove_multiple_spaces (remove_punct (remove_stopwords
    (re_sub_amp (re_sub_parens (lower s)))))).

(** One turn of the loop over [cached_songs]: [None] when the song is
    dropped, the appended tuple otherwise.  [albumNameTokens] is a set in
    the source: its members are listed here in order of first occurrence. *)
Definition score_song (ytSongNameTokens ytTitleTokens : list string)
    (yt_title : string) (song : Song) : option scored :=
  let providerSongNameTokens := split (provider_text (track_name song)) in
  let dist := compute_jaccard ytSongNameTokens providerSongNameTokens in
  if (SEARCH_SENSITIVITY <=? dist)%float then
    if nonempty yt_title then
      let artistNameTokens := split (provider_text (artist_name song)) in
      let artistDist := compute_jaccard ytTitleTokens artistNameTokens in
      let albumNameTokens := remove_dups (split (provider_text (collection_name song))) in
      let albumNameTokens :=
        list_difference (list_difference albumNameTokens providerSongNameTokens)
                        artistNameTokens in
      let albumDist := compute_jaccard ytTitleTokens albumNameTokens in
      let weightedDist := (albumDist * 0.65 + artistDist * 0.3 + dist * 0.05)%float in
      Some (mk_scored song dist albumDist artistDist weightedDist)
    else Some (mk_scored song dist 0 0 0)
  else None.

(** [ytSongNameTokens]: at most the five leading tokens of the query. *)
Definition query_tokens (song_name : string) : list string :=
  let ytSongNameTokens := split (query_text song_name) in
  if (5 <? length ytSongNameTokens)%nat then take 5 ytSongNameTokens
  else ytSongNameTokens.

(** [res] when the loop over [cached_songs] ends, line 208. *)
Definition score_all (song_name : string) (song_list : list Song) (yt_title : string)
    : list scored :=
  let yt_title := query_text yt_title in
  omap (score_song (query_tokens song_name) (split yt_title) yt_title) song_list.

(** [dist] of a song: the Jaccard score of its title against the query. *)
Definition title_dist (song_name : string) (song : Song) : float :=
  compute_jaccard (query_tokens song_name) (split (provider_text (track_name song))).

Definition _search_tokens (song_name : string) (song_list : list Song)
    (yt_title : string) : result (list entry) :=
  let res := score_all song_name song_list yt_title in
  let res := sort_desc res in
  let! res := promote res in
  final_pass res.

End Ranker.

(** ** Deduplication *)

Section Dedup.
Context {H : Type} `{hashing : Hashing H}.

(** Lines 367-374: [seen] is [to_be_sorted_hash], [unique] is
    [to_be_sorted_unique]. *)
Fixpoint dedup_loop (items : list Song) (seen : gset H) (unique : list Song)
    : list Song :=
  match items with
  | [] => unique
  | item :: items' =>
      if decide (hash item ∈ seen) then dedup_loop items' seen unique
      else dedup_loop items' ({[hash item]} ∪ seen) (unique ++ [item])
  end.

Definition to_be_sorted_unique (items : list Song) : list Song :=
  dedup_loop items ∅ [].

(** [x] stands at index [i] of [items] and no earlier item has its hash. *)
Definition first_seen (items : list Song) (i : nat) (x : Song) : Prop :=
  items !! i = Some x ∧ ∀ j y, j < i → items !! j = Some y → hash y ≠ hash x.

End Dedup.

(** ** The driver *)

Section Driver.
Context {builtins : Builtins} {imports : Imports} {configuration : Providers}
  {H : Type} `{hashing : Hashing H}.

Definition GET_METADATA_ACTIONS : gmap string (string → option (list Song)) :=
  list_to_map
    [("itunes", get_from_itunes); ("gaana", get_from_gaana);
     ("deezer", get_from_deezer); ("saavn", get_from_saavn);
     ("lastfm", get_from_lastfm); ("musicbrainz", get_from_musicbrainz);
     ("spotify", get_from_spotify)].

(** The body of the inner loop, lines 351-364. *)
Definition query_provider (filters : list (option string))
    (search_by_query provider : string) (st : pool) : result pool :=
  match GET_METADATA_ACTIONS !! provider with
  | Some action =>
      match action search_by_query with
      | Some (song :: more) =>
          let! lists :=
            _extend_to_be_sorted_and_rest (Some (song :: more))
              (to_be_sorted st) (rest st) filters in
          Ok (mk_pool lists.1 lists.2 (broken_provider_counter st))
      | _ => Ok st
      end
  | None =>
      Ok (mk_pool (to_be_sorted st) (rest st) (broken_provider_counter st + 1))
  end.

(** Lines 349-364: every variant, every provider. *)
Definition aggregate (filters : list (option string)) (variants : list string)
    : result pool :=
  for_each (λ search_by_query,
              for_each (query_provider filters search_by_query) METADATA_PROVIDERS)
           variants (mk_pool [] [] 0).

Definition SEARCH_SONG (search_by song_name : string) (filters : list (option string))
    (disable_sort : bool) (yt_title : string) : result report :=
  let variants := set_order (query_variants search_by yt_title) in
  let! st := aggregate filters variants in
  let to_be_sorted := to_be_sorted_unique (to_be_sorted st) in
  let critical :=
    bool_decide (broken_provider_counter st = length METADATA_PROVIDERS) in
  if negb (truthy to_be_sorted) then Ok (mk_report critical None)
  else if disable_sort then Ok (mk_report critical (Some (Plain <$> to_be_sorted)))
  else
    let! sorted_data := _search_tokens song_name to_be_sorted yt_title in
    Ok (mk_report critical (Some sorted_data)).

(** [provider in GET_METADATA_ACTIONS] *)
Definition recognised (provider : string) : bool :=
  match GET_METADATA_ACTIONS !! provider with
  | Some _ => true
  | None => false
  end.

(** The configured names that are not keys of [GET_METADATA_ACTIONS]. *)
Definition unknown_providers (providers : list string) : list string :=
  filter (λ p, recognised p = false) providers.

End Driver.

(** ** Sample inputs *)

(** The stand-ins as an instance of the imports, with a sensitivity of 0.5. *)
Definition sample_imports : Imports := {|
  unidecode := unidecode_sample;
  remove_multiple_spaces := remove_multiple_spaces_model;
  remove_punct := remove_punct_model;
  remove_stopwords := remove_stopwords_model;
  compute_jaccard := compute_jaccard_model;
  SEARCH_SENSITIVITY := 0.5
|}.

Definition song_a : Song := mk_song "Love Song" "Band" "Album One" (Some "").
Definition song_b : Song := mk_song "Love Song" "Band" "Album One" (Some "2001-05-01").
Definition song_c : Song :=
  mk_song "Love Song" "Band" "Album Two" (Some "1999-01-01T00:00:00Z").
Definition song_d : Song := mk_song "Other" "Band" "Album Two" (Some "1999").
Definition song_undated : Song := mk_song "Love Song" "Band" "Album One" None.

(** "Thé", the letter e with its acute accent in UTF-8. *)
Definition the_accented : string :=
  String "T" (String "h" (String (ascii_of_nat 195) (String (ascii_of_nat 169) EmptyString))).

(** "xx Thé", and a record with this title. *)
Definition xx_the_accented : string := "xx " +:+ the_accented.
Definition song_accented : Song := mk_song xx_the_accented "Band" "Album One" (Some "").

(** One configured provider, whose name is not a key of the actions. *)
Definition unknown_provider_config : Providers := {|
  METADATA_PROVIDERS := ["foo"];
  get_from_itunes := λ _, None;
  get_from_gaana := λ _, None;
  get_from_deezer := λ _, None;
  get_from_saavn := λ _, None;
  get_from_lastfm := λ _, None;
  get_from_musicbrainz := λ _, None;
  get_from_spotify := λ _, None;
  set_order := elements
|}.

(** One configured provider, recognised, that finds nothing. *)
Definition silent_provider_config : Providers := {|
  METADATA_PROVIDERS := ["itunes"];
  get_from_itunes := λ _, Some [];
  get_from_gaana := λ _, None;
  get_from_deezer := λ _, None;
  get_from_saavn := λ _, None;
  get_from_lastfm := λ _, None;
  get_from_musicbrainz := λ _, None;
  get_from_spotify := λ _, None;
  set_order := elements
|}.

(** Four recognised providers that find nothing, and one unknown name. *)
Definition silent_mixed_config : Providers := {|
  METADATA_PROVIDERS := ["itunes"; "gaana"; "deezer"; "saavn"; "foo"];
  get_from_itunes := λ _, Some [];
  get_from_gaana := λ _, None;
  get_from_deezer := λ _, Some [];
  get_from_saavn := λ _, None;
  get_from_lastfm := λ _, None;
  get_from_musicbrainz := λ _, None;
  get_from_spotify := λ _, None;
  set_order := elements
|}.

(** Records hashed by track and artist. *)
Definition track_artist_hashing : Hashing (string * string) :=
  {| hash := λ s, (track_name s, artist_name s) |}.

(** ** The provider clients behind [get_from_itunes] ... [get_from_spotify] *)

(** What a call into a client library does: it returns, or it raises some
    [Exception], here with its message. *)
Inductive outcome (A : Type) : Type :=
| Returned (a : A)
| Failed (message : string).
Arguments Returned {A} a.
Arguments Failed {A} message.

(** The client libraries and the two country settings the wrappers read. *)
Class Clients : Type := {
  ITUNES_COUNTRY : string;
  SPOTIFY_COUNTRY : string;
  itunespy_search_track : string → string → outcome (option (list Song));
  gaana_searchSong : string → outcome (option (list Song));
  deezer_searchSong : string → outcome (option (list Song));
  lastfm_searchSong : string → outcome (option (list Song));
  saavn_search_query : string → outcome (option (list Song));
  musicbrainz_search_song : string → outcome (option (list Song));
  spotify_search_song : string → string → outcome (option (list Song))
}.

(** [try: return call() / except Exception as e: log; return None].  The
    wrappers of deezer and lastfm have no [return None] of their own: the
    function then ends and returns [None] all the same. *)
Definition try_provider {A : Type} (call : outcome (option A)) : option A :=
  match call with
  | Returned r => r
  | Failed _ => None
  end.

(** Lines 31-105: the seven wrappers, with the order in which the set of
    variants is walked, as the providers of the driver. *)
Definition wrapped_providers (clients : Clients) (names : list string)
    (order : gset string → list string) : Providers := {|
  METADATA_PROVIDERS := names;
  get_from_itunes := λ SONG_NAME, try_provider (itunespy_search_track SONG_NAME ITUNES_COUNTRY);
  get_from_gaana := λ SONG_NAME, try_provider (gaana_searchSong SONG_NAME);
  get_from_deezer := λ SONG_NAME, try_provider (deezer_searchSong SONG_NAME);
  get_from_saavn := λ SONG_NAME, try_provider (saavn_search_query SONG_NAME);
  get_from_lastfm := λ SONG_NAME, try_provider (lastfm_searchSong SONG_NAME);
  get_from_musicbrainz := λ SONG_NAME, try_provider (musicbrainz_search_song SONG_NAME);
  get_from_spotify := λ SONG_NAME, try_provider (spotify_search_song SONG_NAME SPOTIFY_COUNTRY);
  set_order := order
|}.

(** ** Definitions for the further properties *)

(** An entry without release date whose weighted distance is not below 70%
    of itself (so any entry with a score that is neither negative nor NaN). *)
Definition undated_in_reach (e : scored) : Prop :=
  date_missing (sc_song e) = true
  ∧ (sc_weightedDist e <? sc_weightedDist e * 0.7)%float = false.

(** The last index the release-date pass looks at. *)
Definition window_end (res : list scored) : nat := Nat.min (length res) 10 - 1.

(** Two entries with the same sort key: neither key is below the other. *)
Definition same_key (a b : scored) : bool :=
  negb (key_ltb (sort_key a) (sort_key b)) && negb (key_ltb (sort_key b) (sort_key a)).

Section Answers.
Context {configuration : Providers}.

(** What one provider hands over for one variant: the data of a recognised
    provider that the test [if data_provider:] accepts, nothing otherwise. *)
Definition provider_answer (search_by_query provider : string) : list Song :=
  match GET_METADATA_ACTIONS !! provider with
  | Some action =>
      match action search_by_query with
      | Some data => data
      | None => []
      end
  | None => []
  end.

(** All the answers, variant after variant, provider after provider. *)
Definition all_answers (variants : list string) : list Song :=
  variants ≫= (λ search_by_query, METADATA_PROVIDERS ≫= provider_answer search_by_query).

End Answers.

(** Two more undated songs, and a song whose date is a year and a month of
    one digit: its length is not 7, so it is read as year-month-day. *)
Definition song_e : Song := mk_song "Love Song" "Band" "Album Three" (Some "").
Definition song_f : Song := mk_song "Love Song" "Band" "Album Four" (Some "").

(** Every client fails. *)
Definition failing_clients : Clients := {|
  ITUNES_COUNTRY := "US";
  SPOTIFY_COUNTRY := "US";
  itunespy_search_track := λ _ _, Failed "connection refused";
  gaana_searchSong := λ _, Failed "connection refused";
  deezer_searchSong := λ _, Failed "connection refused";
  lastfm_searchSong := λ _, Failed "connection refused";
  saavn_search_query := λ _, Failed "connection refused";
  musicbrainz_search_song := λ _, Failed "connection refused";
  spotify_search_song := λ _ _, Failed "connection refused"
|}.

(** Two recognised providers with data, one unknown name. *)
Definition answering_config : Providers := {|
  METADATA_PROVIDERS := ["itunes"; "foo"; "gaana"];
  get_from_itunes := λ _, Some [song_b; song_d];
  get_from_gaana := λ _, Some [song_c];
  get_from_deezer := λ _, None;
  get_from_saavn := λ _, None;
  get_from_lastfm := λ _, None;
  get_from_musicbrainz := λ _, None;
  get_from_spotify := λ _, None;
  set_order := elements
|}.

(** Four recognised providers and one unknown name. *)
Definition mixed_config : Providers := {|
  METADATA_PROVIDERS := ["itunes"; "gaana"; "deezer"; "saavn"; "foo"];
  get_from_itunes := λ _, Some [song_b];
  get_from_gaana := λ _, Some [];
  get_from_deezer := λ _, None;
  get_from_saavn := λ _, None;
  get_from_lastfm := λ _, None;
  get_from_musicbrainz := λ _, None;
  get_from_spotify := λ _, None;
  set_order := elements
|}.

(** * Properties *)

(** ** The built-ins on explicit inputs *)

Example split_ex : split_ascii "  Tera   Buzz " = ["Tera"; "Buzz"].
Proof. reflexivity. Qed.

Example re_sub_parens_ex :
  re_sub_parens "love (feat. x) me (live" = "love  me (live".
Proof. reflexivity. Qed.

Example split_T_ex : split_T "2001-05-01T07:00:00Z" = "2001-05-01".
Proof. reflexivity. Qed.

Example strptime_full : strptime "2001-05-01" fmt_Ymd = Some (mk_datetime 2001 5 1).
Proof. reflexivity. Qed.

Example strptime_year : strptime "1999" fmt_Y = Some (mk_datetime 1999 1 1).
Proof. reflexivity. Qed.

Example strptime_bad_day : strptime "2001-02-30" fmt_Ymd = None.
Proof. reflexivity. Qed.

Example strptime_trailing : strptime "2001-05-011" fmt_Ymd = None.
Proof. reflexivity. Qed.

(** ** Comparisons *)

Lemma order_cmp_Z {A : Type} (f : A → Z) : order_cmp (λ x y, (f x ?= f y)%Z).
Proof.
  split.
  - intros x y. apply Z.compare_antisym.
  - intros x y z Hxy. apply Z.compare_eq in Hxy. by rewrite Hxy.
  - intros x y z c Hxy Hyz.
    destruct c.
    + apply Z.compare_eq in Hxy, Hyz. rewrite Hxy, Hyz. apply Z.compare_refl.
    + rewrite Z.compare_lt_iff in *. lia.
    + rewrite Z.compare_gt_iff in *. lia.
Qed.

Lemma oc_eq_r {A : Type} (cmp : A → A → comparison) :
  order_cmp cmp → ∀ x y z, cmp y z = Eq → cmp x z = cmp x y.
Proof.
  intros Hc x y z Hyz.
  assert (Hzy : cmp z y = Eq) by (rewrite (oc_antisym _ Hc y z), Hyz; done).
  rewrite (oc_antisym _ Hc z x), (oc_antisym _ Hc y x).
  f_equal. by apply (oc_eq_l _ Hc).
Qed.

Lemma order_cmp_lexc {A : Type} (c1 c2 : A → A → comparison) :
  order_cmp c1 → order_cmp c2 → order_cmp (λ x y, lexc (c1 x y) (c2 x y)).
Proof.
  intros H1 H2. split.
  - intros x y. rewrite (oc_antisym _ H1 x y), (oc_antisym _ H2 x y).
    by destruct (c1 x y).
  - intros x y z Hxy.
    destruct (c1 x y) eqn:E1; simpl in Hxy; try discriminate.
    rewrite (oc_eq_l _ H1 x y z E1), (oc_eq_l _ H2 x y z Hxy). done.
  - intros x y z c Hxy Hyz.
    destruct (c1 x y) eqn:E1; simpl in Hxy.
    + rewrite (oc_eq_l _ H1 x y z E1).
      destruct (c1 y z) eqn:E2; simpl in *; [|done..].
      subst c. by apply (oc_trans _ H2 x y z).
    + subst c. destruct (c1 y z) eqn:E2; simpl in Hyz.
      * by rewrite (oc_eq_r _ H1 x y z E2), E1.
      * by rewrite (oc_trans _ H1 x y z Lt E1 E2).
      * done.
    + subst c. destruct (c1 y z) eqn:E2; simpl in Hyz.
      * by rewrite (oc_eq_r _ H1 x y z E2), E1.
      * done.
      * by rewrite (oc_trans _ H1 x y z Gt E1 E2).
Qed.

(** Greater-or-equal is transitive. *)
Lemma order_cmp_ge_trans {A : Type} (cmp : A → A → comparison) :
  order_cmp cmp → ∀ x y z, cmp x y ≠ Lt → cmp y z ≠ Lt → cmp x z ≠ Lt.
Proof.
  intros Hc x y z Hxy Hyz.
  destruct (cmp x y) eqn:E1; [|done|].
  - by rewrite (oc_eq_l _ Hc x y z E1).
  - destruct (cmp y z) eqn:E2; [|done|].
    + by rewrite (oc_eq_r _ Hc x y z E2), E1.
    + by rewrite (oc_trans _ Hc x y z Gt E1 E2).
Qed.

Lemma SFcompare_rank a b :
  SFcompare a b =
  if sf_nan a || sf_nan b then None
  else Some (lexc ((sf_rank a).1.1 ?= (sf_rank b).1.1)%Z
              (lexc ((sf_rank a).1.2 ?= (sf_rank b).1.2)%Z
                    ((sf_rank a).2 ?= (sf_rank b).2)%Z)).
Proof.
  destruct a as [[]|[]| |[] m1 e1], b as [[]|[]| |[] m2 e2]; try reflexivity; simpl.
  - rewrite Z.compare_opp, (Z.compare_antisym e1 e2).
    destruct (e1 ?= e2)%Z; reflexivity.
  - destruct (e1 ?= e2)%Z; reflexivity.
Qed.

Lemma not_nan_sf x : not_nan x = true → sf_nan (Prim2SF x) = false.
Proof.
  unfold not_nan. rewrite FloatAxioms.eqb_spec. unfold SFeqb.
  rewrite SFcompare_rank. by destruct (sf_nan (Prim2SF x)).
Qed.

Lemma float_ltb_rank x y :
  not_nan x = true → not_nan y = true →
  (x <? y)%float = match rank_cmp x y with Lt => true | _ => false end.
Proof.
  intros Hx%not_nan_sf Hy%not_nan_sf.
  rewrite FloatAxioms.ltb_spec. unfold SFltb. rewrite SFcompare_rank, Hx, Hy. done.
Qed.

Lemma float_eqb_rank x y :
  not_nan x = true → not_nan y = true →
  (x =? y)%float = match rank_cmp x y with Eq => true | _ => false end.
Proof.
  intros Hx%not_nan_sf Hy%not_nan_sf.
  rewrite FloatAxioms.eqb_spec. unfold SFeqb. rewrite SFcompare_rank, Hx, Hy. done.
Qed.

Lemma order_cmp_rank {A : Type} (f : A → float) :
  order_cmp (λ x y, rank_cmp (f x) (f y)).
Proof.
  unfold rank_cmp.
  apply order_cmp_lexc; [apply (order_cmp_Z (λ x, (rank (f x)).1.1))|].
  apply order_cmp_lexc; [apply (order_cmp_Z (λ x, (rank (f x)).1.2))|].
  apply (order_cmp_Z (λ x, (rank (f x)).2)).
Qed.

Lemma order_cmp_key : order_cmp key_cmp.
Proof.
  unfold key_cmp.
  apply order_cmp_lexc; [apply (order_cmp_rank sc_weightedDist)|].
  apply order_cmp_lexc; [apply (order_cmp_rank sc_albumDist)|].
  apply order_cmp_lexc; [apply (order_cmp_rank sc_artistDist)|].
  apply (order_cmp_rank sc_dist).
Qed.

Lemma key_ok_fields a :
  key_ok a = true →
  not_nan (sc_weightedDist a) = true ∧ not_nan (sc_albumDist a) = true
  ∧ not_nan (sc_artistDist a) = true ∧ not_nan (sc_dist a) = true.
Proof.
  unfold key_ok. rewrite !andb_true_iff. by intros [[[? ?] ?] ?].
Qed.

(** On keys without NaN, Python's tuple comparison is [key_cmp]. *)
Lemma key_ltb_cmp a b :
  key_ok a = true → key_ok b = true →
  key_ltb (sort_key a) (sort_key b) = match key_cmp a b with Lt => true | _ => false end.
Proof.
  intros (Ha1 & Ha2 & Ha3 & Ha4)%key_ok_fields (Hb1 & Hb2 & Hb3 & Hb4)%key_ok_fields.
  unfold key_ltb, sort_key, key_cmp.
  rewrite !float_eqb_rank, !float_ltb_rank by done.
  destruct (rank_cmp (sc_weightedDist a) (sc_weightedDist b)),
    (rank_cmp (sc_albumDist a) (sc_albumDist b)),
    (rank_cmp (sc_artistDist a) (sc_artistDist b)),
    (rank_cmp (sc_dist a) (sc_dist b)); reflexivity.
Qed.

Lemma rank_cmp_cases x y :
  not_nan x = true → not_nan y = true →
  match rank_cmp x y with
  | Lt => (x <? y)%float = true
  | Eq => (x =? y)%float = true
  | Gt => (y <? x)%float = true
  end.
Proof.
  intros Hx Hy.
  pose proof (oc_antisym _ (order_cmp_rank id) x y) as Hop. simpl in Hop.
  rewrite (float_ltb_rank x y), (float_eqb_rank x y), (float_ltb_rank y x) by done.
  rewrite Hop. by destruct (rank_cmp x y).
Qed.

Lemma key_cmp_ge a b :
  key_ok a = true → key_ok b = true → key_cmp a b ≠ Lt → key_ge a b.
Proof.
  intros (Ha1 & Ha2 & Ha3 & Ha4)%key_ok_fields (Hb1 & Hb2 & Hb3 & Hb4)%key_ok_fields.
  unfold key_cmp, key_ge.
  pose proof (rank_cmp_cases _ _ Ha1 Hb1) as H1.
  pose proof (rank_cmp_cases _ _ Ha2 Hb2) as H2.
  pose proof (rank_cmp_cases _ _ Ha3 Hb3) as H3.
  pose proof (rank_cmp_cases _ _ Ha4 Hb4) as H4.
  destruct (rank_cmp (sc_weightedDist a) (sc_weightedDist b)); simpl; [|done|by left].
  intros Hge. right. split; [done|].
  destruct (rank_cmp (sc_albumDist a) (sc_albumDist b)); simpl in Hge; [|done|by left].
  right. split; [done|].
  destruct (rank_cmp (sc_artistDist a) (sc_artistDist b)); simpl in Hge; [|done|by left].
  right. split; [done|].
  destruct (rank_cmp (sc_dist a) (sc_dist b)); [by right|done|by left].
Qed.

(** ** The sort *)

Lemma insert_desc_perm x l : insert_desc x l ≡ₚ x :: l.
Proof.
  induction l as [|y l IH]; cbn [insert_desc]; [done|].
  destruct (key_ltb (sort_key x) (sort_key y)); [|reflexivity].
  rewrite IH. apply Permutation_swap.
Qed.

Lemma sort_desc_perm l : sort_desc l ≡ₚ l.
Proof.
  induction l as [|x l IH]; simpl; [done|].
  by rewrite insert_desc_perm, IH.
Qed.

Lemma insert_desc_sorted x l :
  key_ok x = true → Forall (λ y, key_ok y = true) l →
  StronglySorted (λ a b, key_cmp a b ≠ Lt) l →
  StronglySorted (λ a b, key_cmp a b ≠ Lt) (insert_desc x l).
Proof.
  intros Hx Hl Hs. induction Hs as [|y l Hs IH Hy]; cbn [insert_desc].
  - repeat constructor.
  - apply Forall_cons in Hl as [Hyok Hl].
    rewrite (key_ltb_cmp x y) by done.
    destruct (key_cmp x y) eqn:E.
    + constructor; [by constructor|]. constructor; [by rewrite E|].
      eapply Forall_impl; [exact Hy|]. intros z Hz. simpl in Hz.
      apply (order_cmp_ge_trans _ order_cmp_key x y z); [by rewrite E|done].
    + constructor; [by apply IH|].
      rewrite insert_desc_perm. constructor; [|done].
      rewrite (oc_antisym _ order_cmp_key x y), E. done.
    + constructor; [by constructor|]. constructor; [by rewrite E|].
      eapply Forall_impl; [exact Hy|]. intros z Hz. simpl in Hz.
      apply (order_cmp_ge_trans _ order_cmp_key x y z); [by rewrite E|done].
Qed.

Lemma sort_desc_sorted l :
  Forall (λ y, key_ok y = true) l →
  StronglySorted (λ a b, key_cmp a b ≠ Lt) (sort_desc l).
Proof.
  induction 1 as [|x l Hx Hl IH]; simpl; [constructor|].
  apply insert_desc_sorted; [done| |done].
  by rewrite sort_desc_perm.
Qed.

Lemma StronglySorted_lookup {A : Type} (R : A → A → Prop) (l : list A) i j a b :
  StronglySorted R l → i < j → l !! i = Some a → l !! j = Some b → R a b.
Proof.
  intros Hs. revert i j. induction Hs as [|x l Hs IH Hx]; intros i j Hij Hi Hj; [done|].
  destruct j as [|j]; [lia|]. simpl in Hj.
  destruct i as [|i]; simpl in Hi.
  - injection Hi as ->. rewrite Forall_forall in Hx. apply Hx.
    by eapply list_elem_of_lookup_2.
  - apply (IH i j); [lia|done..].
Qed.

(** The sort is stable: a list that is already in descending order, ties
    included, is left as it is. *)
Lemma sort_desc_stable l :
  StronglySorted (λ a b, key_ltb (sort_key a) (sort_key b) = false) l →
  sort_desc l = l.
Proof.
  induction 1 as [|x l Hs IH Hx]; [done|].
  cbn [sort_desc foldr]. fold (sort_desc l). rewrite IH.
  destruct l as [|y l']; [done|]. cbn [insert_desc].
  apply Forall_cons in Hx as [Hxy _]. by rewrite Hxy.
Qed.

(** With keys free of NaN the sorted list has the greatest key first: of
    two entries, the earlier one is [key_ge] the later one. *)
Lemma sort_desc_descending l i j a b :
  Forall (λ y, key_ok y = true) l →
  i < j → sort_desc l !! i = Some a → sort_desc l !! j = Some b → key_ge a b.
Proof.
  intros Hl Hij Hi Hj.
  assert (Hall : Forall (λ y, key_ok y = true) (sort_desc l)) by by rewrite sort_desc_perm.
  rewrite Forall_forall in Hall.
  apply key_cmp_ge; [by eapply Hall, list_elem_of_lookup_2..|].
  apply (StronglySorted_lookup (λ a b, key_cmp a b ≠ Lt) (sort_desc l) i j); [|done..].
  by apply sort_desc_sorted.
Qed.

Lemma float_ltb_not_leb x y : (x <? y)%float = true → (y <=? x)%float = false.
Proof.
  rewrite FloatAxioms.ltb_spec, FloatAxioms.leb_spec. unfold SFltb, SFleb.
  rewrite !SFcompare_rank.
  destruct (sf_nan (Prim2SF x)), (sf_nan (Prim2SF y)); simpl; try done.
  pose proof (oc_antisym _ (order_cmp_rank id) x y) as Hop.
  unfold rank_cmp, rank in Hop. simpl in Hop. rewrite Hop. clear Hop.
  by destruct (lexc _ (lexc _ _)).
Qed.

(** ** The release-date pass *)

Lemma swap_top_perm res i top cur :
  res !! 0 = Some top → res !! i = Some cur → swap_top res i top cur ≡ₚ res.
Proof.
  unfold swap_top. destruct res as [|x tl]; [done|].
  intros [= ->] Hi. destruct i as [|k]; simpl in *.
  - by injection Hi as ->.
  - pose proof (lookup_lt_Some _ _ _ Hi) as Hk.
    rewrite (insert_take_drop tl k top) by done.
    rewrite <- (take_drop_middle tl k cur Hi) at 3.
    rewrite <- !Permutation_middle. apply Permutation_swap.
Qed.

Lemma swap_top_length res i top cur : length (swap_top res i top cur) = length res.
Proof. unfold swap_top. by rewrite !length_insert. Qed.

Lemma swap_top_take res i top cur :
  i < 10 → res !! 0 = Some top → res !! i = Some cur →
  take 10 (swap_top res i top cur) ≡ₚ take 10 res.
Proof.
  intros Hi Htop Hc. unfold swap_top.
  rewrite !take_insert_lt by lia.
  apply (swap_top_perm (take 10 res)); rewrite lookup_take_lt by lia; done.
Qed.

Lemma swap_top_drop res i top cur :
  i < 10 → drop 10 (swap_top res i top cur) = drop 10 res.
Proof.
  intros Hi. unfold swap_top. by rewrite !drop_insert_lt by lia.
Qed.

(** The outcomes of one turn of the loop. *)
Lemma promote_body_Ok i res thr c res' thr' :
  promote_body i (res, thr) = Ok (c, (res', thr')) →
  ∃ top cur,
    res !! 0 = Some top ∧ res !! i = Some cur
    ∧ thr' = (if date_missing (sc_song top) then (sc_weightedDist cur * 0.7)%float else thr)
    ∧ ((c = Break ∧ res' = res ∧ (sc_weightedDist cur <? thr')%float = true)
       ∨ (c = Next ∧ (sc_weightedDist cur <? thr')%float = false
          ∧ (res' = res
             ∨ (res' = swap_top res i top cur
                ∧ (date_missing (sc_song top) = true
                   ∨ (date_missing (sc_song top) = false
                      ∧ date_missing (sc_song cur) = false
                      ∧ released_before cur top)))))).
Proof.
  unfold promote_body.
  destruct (res !! 0) as [top|] eqn:Htop; [|done].
  destruct (res !! i) as [cur|] eqn:Hi; [|done].
  intros Hb. exists top, cur. split; [done|]. split; [done|].
  set (t := if date_missing (sc_song top) then _ else thr) in *.
  destruct (sc_weightedDist cur <? t)%float eqn:Hlt.
  { injection Hb as <- <- <-. split; [done|]. left. done. }
  destruct (date_missing (sc_song cur)) eqn:Hmc; simpl in Hb.
  - destruct (date_missing (sc_song top)) eqn:Hmt;
      injection Hb as <- <- <-; (split; [done|]); right; (repeat split; try done).
    + right. split; [done|]. by left.
    + by left.
  - destruct (date_missing (sc_song top)) eqn:Hmt; simpl in Hb.
    + injection Hb as <- <- <-. split; [done|]. right. repeat split; try done.
      right. split; [done|]. by left.
    + destruct (release_date (sc_song top)) as [d0|] eqn:Hd0.
      2:{ unfold date_missing in Hmt. by rewrite Hd0 in Hmt. }
      destruct (release_date (sc_song cur)) as [di|] eqn:Hdi.
      2:{ unfold date_missing in Hmc. by rewrite Hdi in Hmc. }
      destruct (strptime (split_T d0) (format_for d0)) as [D0|] eqn:HD0; [|done].
      destruct (strptime (split_T di) (format_for di)) as [Di|] eqn:HDi; [|done].
      destruct (datetime_gt D0 Di) eqn:Hgt; injection Hb as <- <- <-;
        (split; [done|]); right; (repeat split; try done).
      * right. split; [done|]. right. repeat split; try done.
        by exists di, d0, Di, D0.
      * by left.
Qed.

(** A property kept by every turn that runs holds when the loop ends. *)
Lemma promote_loop_inv (I : list scored * float → Prop) indices st st' :
  (∀ i st0 c st1, 0 < i < 10 → I st0 → promote_body i st0 = Ok (c, st1) → I st1) →
  I st → promote_loop indices st = Ok st' → I st'.
Proof.
  intros Hstep. revert st.
  induction indices as [|i indices IH]; intros st Hst Hloop; simpl in Hloop.
  - by injection Hloop as <-.
  - destruct (i <? 10)%nat eqn:Hi10; [|by eapply IH].
    destruct (i =? 0)%nat eqn:Hi0; [by eapply IH|].
    apply Nat.ltb_lt in Hi10. apply Nat.eqb_neq in Hi0.
    destruct (promote_body i st) as [[[] st1]|] eqn:Hbody; [| |done].
    + eapply IH; [|done]. eapply (Hstep i); [lia|done..].
    + injection Hloop as <-. eapply (Hstep i); [lia|done..].
Qed.

Lemma promote_body_window i res thr c res' thr' :
  i < 10 → promote_body i (res, thr) = Ok (c, (res', thr')) →
  res' ≡ₚ res ∧ take 10 res' ≡ₚ take 10 res ∧ drop 10 res' = drop 10 res.
Proof.
  intros Hi (top & cur & Htop & Hcur & _ & Hcases)%promote_body_Ok.
  destruct Hcases as [(_ & -> & _)|(_ & _ & [->|[-> _]])]; [done..|].
  split; [by apply swap_top_perm|].
  split; [by apply swap_top_take|by apply swap_top_drop].
Qed.

(** The pass only rearranges the first ten entries. *)
Lemma promote_window res res' :
  promote res = Ok res' →
  res' ≡ₚ res ∧ take 10 res' ≡ₚ take 10 res ∧ drop 10 res' = drop 10 res.
Proof.
  unfold promote. destruct res as [|top tl]; [by intros [= <-]|].
  destruct (promote_loop _ _) as [st|] eqn:Hloop; simpl; [|done].
  intros [= <-].
  apply (promote_loop_inv
           (λ st, st.1 ≡ₚ top :: tl ∧ take 10 st.1 ≡ₚ take 10 (top :: tl)
                  ∧ drop 10 st.1 = drop 10 (top :: tl)) _ _ _) in Hloop; [done| |done].
  intros i [r t] c [r1 t1] Hi (Hp & Ht & Hd) Hbody. simpl in *.
  apply promote_body_window in Hbody as (Hp1 & Ht1 & Hd1); [|lia].
  split; [by etrans|]. split; [by etrans|congruence].
Qed.

Lemma promote_body_defined i res thr :
  i < length res →
  Forall (λ e, date_ok (sc_song e) = true) res →
  ∃ c st1, promote_body i (res, thr) = Ok (c, st1).
Proof.
  intros Hi Hok. unfold promote_body.
  destruct (lookup_lt_is_Some_2 res 0 ltac:(lia)) as [top Htop].
  destruct (lookup_lt_is_Some_2 res i Hi) as [cur Hcur].
  rewrite Htop, Hcur. rewrite Forall_forall in Hok.
  pose proof (Hok top (list_elem_of_lookup_2 _ _ _ Htop)) as Hoktop.
  pose proof (Hok cur (list_elem_of_lookup_2 _ _ _ Hcur)) as Hokcur.
  destruct (_ <? _)%float; [by eauto|].
  destruct (date_missing (sc_song cur)) eqn:Hmc; simpl.
  { destruct (date_missing (sc_song top)); by eauto. }
  destruct (date_missing (sc_song top)) eqn:Hmt; simpl; [by eauto|].
  unfold date_ok, date_missing in *.
  destruct (release_date (sc_song top)) as [d0|]; [|done].
  destruct (release_date (sc_song cur)) as [di|]; [|done].
  rewrite Hmt in Hoktop. rewrite Hmc in Hokcur. simpl in *.
  apply bool_decide_eq_true in Hoktop as [D0 ->], Hokcur as [Di ->].
  destruct (datetime_gt D0 Di); by eauto.
Qed.

Lemma promote_loop_defined indices res thr :
  Forall (λ i, i < length res) indices →
  Forall (λ e, date_ok (sc_song e) = true) res →
  ∃ st', promote_loop indices (res, thr) = Ok st'.
Proof.
  revert res thr.
  induction indices as [|i indices IH]; intros res thr Hidx Hok; cbn [promote_loop].
  - by eauto.
  - apply Forall_cons in Hidx as [Hi Hidx].
    destruct (i <? 10)%nat eqn:Hi10; [|by apply IH].
    destruct (i =? 0)%nat; [by apply IH|].
    destruct (promote_body_defined i res thr Hi Hok) as (c & [res1 thr1] & Hbody).
    rewrite Hbody. destruct c; [|by eauto].
    apply Nat.ltb_lt in Hi10.
    apply promote_body_window in Hbody as (Hp & _); [|done].
    apply IH.
    + eapply Forall_impl; [exact Hidx|]. intros j Hj. simpl in *. by rewrite Hp.
    + by rewrite Hp.
Qed.

Lemma promote_defined res :
  Forall (λ e, date_ok (sc_song e) = true) res → ∃ res', promote res = Ok res'.
Proof.
  intros Hok. unfold promote. destruct res as [|top tl]; [by eauto|].
  destruct (promote_loop_defined (seq 0 (length (top :: tl))) (top :: tl)
              (sc_weightedDist top * 0.7)%float) as [st ->]; [|done|by simpl; eauto].
  apply Forall_forall. intros i Hi%elem_of_seq. lia.
Qed.

(** ** The last loop *)

Lemma cut_date_missing s : date_missing s = true → cut_date s = s.
Proof.
  unfold date_missing, cut_date. destruct s as [t a c [d|]]; simpl; [|done].
  destruct d; [done|]. discriminate.
Qed.

Lemma cut_date_track_name s : track_name (cut_date s) = track_name s.
Proof. unfold cut_date. by destruct (release_date s). Qed.

(** The records of the returned list are those of the tuples, each with
    its release date cut. *)
Lemma final_pass_from_songs i res out :
  final_pass_from i res = Ok out →
  entry_song <$> out = cut_date <$> (sc_song <$> res).
Proof.
  revert i out. induction res as [|x res IH]; intros i out Hfp; simpl in Hfp.
  - by injection Hfp as <-.
  - destruct (date_missing (sc_song x) && (i =? 0)%nat) eqn:Hskip.
    + destruct (final_pass_from (S i) res) as [tl|] eqn:Htl; simpl in Hfp; [|done].
      injection Hfp as <-. apply andb_true_iff in Hskip as [Hm _].
      rewrite !fmap_cons, (IH _ _ Htl). cbn [entry_song].
      by rewrite (cut_date_missing _ Hm).
    + destruct (release_date (sc_song x)) as [d|] eqn:Hd; [|done].
      destruct (final_pass_from (S i) res) as [tl|] eqn:Htl; simpl in Hfp; [|done].
      injection Hfp as <-. rewrite !fmap_cons, (IH _ _ Htl). cbn [entry_song].
      f_equal. unfold cut_date. by rewrite Hd.
Qed.

Lemma final_pass_from_defined i res :
  Forall (λ e, date_ok (sc_song e) = true) res → ∃ out, final_pass_from i res = Ok out.
Proof.
  intros Hok. revert i. induction Hok as [|x res Hx Hok IH]; intros i; simpl.
  - by eauto.
  - destruct (IH (S i)) as [tl ->]. simpl.
    destruct (date_missing (sc_song x) && (i =? 0)%nat); [by eauto|].
    unfold date_ok in Hx. destruct (release_date (sc_song x)); [by eauto|done].
Qed.

(** The first slot keeps its tuple when its record has no release date. *)
Lemma final_pass_keeps_tuple x res out :
  date_missing (sc_song x) = true → final_pass (x :: res) = Ok out →
  head out = Some (Tuple x).
Proof.
  unfold final_pass. simpl. intros ->. simpl.
  destruct (final_pass_from 1 res); simpl; [|done]. by intros [= <-].
Qed.

(** From the second slot on, a record without release date stops the loop. *)
Lemma final_pass_from_None i x res :
  release_date (sc_song x) = None → final_pass_from (S i) (x :: res) = Raise AttributeError.
Proof.
  intros Hd. simpl. rewrite Hd. by rewrite andb_false_r.
Qed.

(** ** Promotion of a dated candidate *)

Lemma datetime_gt_spec a b :
  datetime_gt a b = true ↔
  dt_year b < dt_year a
  ∨ (dt_year a = dt_year b
     ∧ (dt_month b < dt_month a
        ∨ (dt_month a = dt_month b ∧ dt_day b < dt_day a))).
Proof.
  unfold datetime_gt.
  rewrite !orb_true_iff, !andb_true_iff, !orb_true_iff, !andb_true_iff,
    !Nat.ltb_lt, !Nat.eqb_eq.
  done.
Qed.

Lemma released_before_trans a b c :
  released_before a b → released_before b c → released_before a c.
Proof.
  intros (da & db & Da & Db & Hda & Hdb & HDa & HDb & Hab)
         (db' & dc & Db' & Dc & Hdb' & Hdc & HDb' & HDc & Hbc).
  rewrite Hdb in Hdb'. injection Hdb' as <-.
  rewrite HDb in HDb'. injection HDb' as <-.
  exists da, dc, Da, Dc. repeat split; try done.
  apply datetime_gt_spec in Hab, Hbc. apply datetime_gt_spec. lia.
Qed.

(** Once a dated entry is on top, the top stays dated and can only give
    way to an entry released strictly earlier. *)
Lemma promote_loop_dated_top e indices res thr st' :
  (∃ h tl, res = h :: tl ∧ date_missing (sc_song h) = false
           ∧ (h = e ∨ released_before h e)) →
  promote_loop indices (res, thr) = Ok st' →
  take 10 st'.1 ≡ₚ take 10 res
  ∧ ∃ h tl, st'.1 = h :: tl ∧ date_missing (sc_song h) = false
            ∧ (h = e ∨ released_before h e).
Proof.
  intros Hres Hloop.
  apply (promote_loop_inv
           (λ st, take 10 st.1 ≡ₚ take 10 res
                  ∧ ∃ h tl, st.1 = h :: tl ∧ date_missing (sc_song h) = false
                            ∧ (h = e ∨ released_before h e)) _ _ _) in Hloop;
    [done| |done].
  intros i [r t] c [r1 t1] Hi (Htake & h & tl & Hr & Hh & Hhe) Hbody.
  simpl in Htake, Hr |- *. subst r.
  apply promote_body_Ok in Hbody as (top & cur & Htop & Hcur & _ & Hcases).
  injection Htop as <-.
  destruct Hcases as [(_ & -> & _)|(_ & _ & [->|[-> Hswap]])];
    [by (split; [done|eauto 10])..|].
  destruct Hswap as [Hmiss|(_ & Hmc & Hbefore)]; [congruence|].
  split.
  - etrans; [|exact Htake]. apply swap_top_take; [lia|done..].
  - destruct i as [|k]; [lia|].
    exists cur, (<[k := h]> tl). split; [done|]. split; [done|]. right.
    destruct Hhe as [->|Hhe]; [done|]. by eapply released_before_trans.
Qed.

(** C3 (as amended): when the sorted list starts with an entry without
    release date, followed by an entry that has one and whose weighted
    distance is not below the threshold recomputed from it, the turn of the
    loop at index 1 puts the second entry first and takes 70% of its
    weighted distance as threshold.  It is first when the pass ends unless
    one of the eight entries after it, released strictly earlier, has taken
    its place; with these two entries alone it is first in the returned
    list.  A turn inside the window whose entry is below the threshold ends
    the loop with the list as it stands, and the pass rearranges the first
    ten entries only: the entries from index 10 on stay where they are. *)
Theorem promotion_of_second_candidate e0 e1 rest :
  date_missing (sc_song e0) = true →
  date_missing (sc_song e1) = false →
  (sc_weightedDist e1 <? sc_weightedDist e1 * 0.7)%float = false →
  promote_body 1 (e0 :: e1 :: rest, (sc_weightedDist e0 * 0.7)%float)
  = Ok (Next, (e1 :: e0 :: rest, (sc_weightedDist e1 * 0.7)%float))
  ∧ (∀ res', promote (e0 :: e1 :: rest) = Ok res' →
       head res' = Some e1
       ∨ ∃ c, c ∈ take 8 rest ∧ head res' = Some c ∧ released_before c e1)
  ∧ promote [e0; e1] = Ok [e1; e0]
  ∧ (∀ d1, release_date (sc_song e0) = Some "" →
       release_date (sc_song e1) = Some d1 →
       rbind (promote [e0; e1]) final_pass
       = Ok [Plain (set_release_date (sc_song e1) (split_T d1));
             Plain (set_release_date (sc_song e0) "")])
  ∧ (∀ i indices res thr top cur,
       0 < i < 10 → res !! 0 = Some top → res !! i = Some cur →
       (sc_weightedDist cur
        <? (if date_missing (sc_song top) then sc_weightedDist cur * 0.7 else thr))%float
       = true →
       promote_loop (i :: indices) (res, thr)
       = Ok (res, (if date_missing (sc_song top) then sc_weightedDist cur * 0.7
                   else thr)%float))
  ∧ (∀ res res', promote res = Ok res' →
       take 10 res' ≡ₚ take 10 res ∧ drop 10 res' = drop 10 res).
Proof.
  intros Hm0 Hm1 Hthr.
  assert (Hbody : ∀ l, promote_body 1 (e0 :: e1 :: l, (sc_weightedDist e0 * 0.7)%float)
                       = Ok (Next, (e1 :: e0 :: l, (sc_weightedDist e1 * 0.7)%float))).
  { intros l. unfold promote_body. cbn [lookup list_lookup].
    rewrite Hm0, Hthr, Hm1. reflexivity. }
  split; [apply Hbody|]. split; [|split; [|split; [|split]]].
  - intros res' Hp. unfold promote in Hp.
    cbn [length seq promote_loop Nat.ltb Nat.leb Nat.eqb] in Hp.
    rewrite Hbody in Hp.
    destruct (promote_loop _ _) as [st|] eqn:Hloop; simpl in Hp; [|done].
    injection Hp as <-.
    apply (promote_loop_dated_top e1) in Hloop as (Htake & h & tl & Hst & Hh & Hhe);
      [|by eauto 10].
    rewrite Hst. simpl. destruct Hhe as [->|Hhe]; [by left|]. right.
    exists h. split; [|done].
    assert (Hin : h ∈ take 10 st.1) by (rewrite Hst; simpl; left).
    rewrite Htake in Hin. simpl in Hin.
    apply elem_of_cons in Hin as [->|Hin].
    { destruct Hhe as (da & db & Da & Db & Hda & Hdb & HDa & HDb & Hgt).
      rewrite Hda in Hdb. injection Hdb as <-.
      rewrite HDa in HDb. injection HDb as <-.
      apply datetime_gt_spec in Hgt. lia. }
    apply elem_of_cons in Hin as [->|Hin]; [congruence|done].
  - unfold promote. cbn [length seq promote_loop Nat.ltb Nat.leb Nat.eqb].
    by rewrite Hbody.
  - intros d1 Hd0 Hd1. unfold promote.
    cbn [length seq promote_loop Nat.ltb Nat.leb Nat.eqb].
    rewrite Hbody. cbn [rbind fst]. unfold final_pass. cbn [final_pass_from].
    rewrite Hm1, Hm0, Hd1, Hd0. reflexivity.
  - intros i indices res thr top cur Hi Htop Hcur Hlt.
    cbn [promote_loop].
    destruct (Nat.ltb_spec i 10) as [_|]; [|lia].
    destruct (Nat.eqb_spec i 0) as [|_]; [lia|].
    unfold promote_body. rewrite Htop, Hcur, Hlt. reflexivity.
  - intros res res' Hp. by apply promote_window in Hp as (_ & ? & ?).
Qed.

(** ** [filterSongs] *)

Lemma filter_loop_two data f0 f1 more new_tuple others :
  filter_loop data (f0 :: f1 :: more) new_tuple others
  = Ok (new_tuple ++ filter (λ s, filter_matches f0 f1 s = true) data,
        others ++ filter (λ s, filter_matches f0 f1 s ≠ true) data).
Proof.
  revert new_tuple others.
  induction data as [|s data IH]; intros new_tuple others; cbn [filter_loop].
  - by rewrite !app_nil_r.
  - cbn [lookup list_lookup]. rewrite !filter_cons. fold (filter_matches f0 f1 s).
    destruct (filter_matches f0 f1 s) eqn:Hm.
    + rewrite IH, decide_True by done.
      rewrite decide_False by (intros Hn; by apply Hn).
      by rewrite <- app_assoc.
    + rewrite IH, decide_False by done.
      rewrite decide_True by done.
      by rewrite <- app_assoc.
Qed.

(** C10: [filterSongs] reads [filters[0]] and [filters[1]] for every song:
    on a non-empty list of songs, a [filters] list with no element (its
    default) or with one element raises [IndexError]; with two or more it
    returns the matching songs followed by the others.  [None] and the
    empty list of songs come back without any read.  The pool builder
    calls [filterSongs] only for a non-empty [filters]: with the empty list
    the data is appended as it is, with a one-element list the
    [IndexError] goes through. *)
Theorem filterSongs_reads_two_filters :
  (∀ song data, filterSongs (Some (song :: data)) [] = Raise IndexError)
  ∧ (∀ song data f, filterSongs (Some (song :: data)) [f] = Raise IndexError)
  ∧ (∀ data f0 f1 more,
       filterSongs (Some data) (f0 :: f1 :: more)
       = Ok (Some (filter (λ s, filter_matches f0 f1 s = true) data
                   ++ filter (λ s, filter_matches f0 f1 s ≠ true) data)))
  ∧ (∀ filters, filterSongs None filters = Ok None
                ∧ filterSongs (Some []) filters = Ok (Some []))
  ∧ (∀ data pool_sorted pool_rest,
       _extend_to_be_sorted_and_rest (Some data) pool_sorted pool_rest []
       = Ok (pool_sorted ++ data, pool_rest ++ data))
  ∧ (∀ provider_data pool_sorted pool_rest f filters,
       _extend_to_be_sorted_and_rest provider_data pool_sorted pool_rest (f :: filters)
       = rbind (filterSongs provider_data (f :: filters))
           (λ filtered, match filtered with
                        | Some d => Ok (pool_sorted ++ d, pool_rest ++ d)
                        | None => Ok (pool_sorted, pool_rest)
                        end))
  ∧ (∀ song data pool_sorted pool_rest f,
       _extend_to_be_sorted_and_rest (Some (song :: data)) pool_sorted pool_rest [f]
       = Raise IndexError).
Proof.
  repeat split; try done.
  intros data f0 f1 more. unfold filterSongs.
  by rewrite filter_loop_two.
Qed.

(** ** Query variants *)

Section Variants_properties.
Context {builtins : Builtins}.

Lemma query_variants_union search_by yt_title :
  query_variants search_by yt_title
  = {[search_by]} ∪ list_to_set (expansions (split search_by))
    ∪ hint_variants search_by yt_title.
Proof.
  unfold query_variants, search_by_query_names_array, hint_variants.
  rewrite !list_to_set_app_L.
  destruct (String.eqb yt_title search_by); set_solver.
Qed.

(** C7 (as amended): the query is always one of the variants.  For a
    query of exactly six words the variants are the query, its first five
    words, its first three, its first two, its first word, and its third
    and fourth words, together with the variants drawn in the same way from
    the title hint when the hint differs from the query; a query of four or
    five words gives no five-word prefix, a query of at most three words
    gives no extra variant at all, and a hint equal to the query or of at
    most three words adds nothing.  The variants form a set: expansions
    that coincide count once. *)
Theorem query_variants_of_query search_by yt_title :
  search_by ∈ query_variants search_by yt_title
  ∧ (∀ w0 w1 w2 w3 w4 w5,
       split search_by = [w0; w1; w2; w3; w4; w5] →
       query_variants search_by yt_title
       = {[ search_by; join [w0; w1; w2; w3; w4]; join [w0; w1; w2]; join [w0; w1];
            w0; join [w2; w3] ]}
         ∪ hint_variants search_by yt_title)
  ∧ ((3 < length (split search_by) ≤ 5)%nat →
     query_variants search_by yt_title
     = {[ search_by; join (take 3 (split search_by)); join (take 2 (split search_by));
          join (take 1 (split search_by)); join (take 2 (drop 2 (split search_by))) ]}
       ∪ hint_variants search_by yt_title)
  ∧ ((length (split search_by) ≤ 3)%nat →
     query_variants search_by yt_title = {[search_by]} ∪ hint_variants search_by yt_title)
  ∧ (yt_title = search_by ∨ (length (split yt_title) ≤ 3)%nat →
     hint_variants search_by yt_title = ∅)
  ∧ NoDup (elements (query_variants search_by yt_title)).
Proof.
  rewrite query_variants_union.
  split; [set_solver|]. split; [|split; [|split; [|split]]].
  - intros w0 w1 w2 w3 w4 w5 Hsplit. rewrite Hsplit. unfold expansions. simpl.
    set_solver.
  - intros [Hlo Hhi]. unfold expansions.
    destruct (Nat.ltb_spec 3 (length (split search_by))); [|lia].
    destruct (Nat.ltb_spec 5 (length (split search_by))); [lia|].
    simpl. set_solver.
  - intros Hlen. unfold expansions.
    destruct (Nat.ltb_spec 3 (length (split search_by))); [lia|].
    simpl. set_solver.
  - intros [->|Hlen]; unfold hint_variants.
    + by rewrite String.eqb_refl.
    + destruct (String.eqb yt_title search_by); [done|].
      unfold expansions.
      destruct (Nat.ltb_spec 3 (length (split yt_title))); [lia|done].
  - apply NoDup_elements.
Qed.

End Variants_properties.

(** ** The ranker *)

Section Ranker_properties.
Context {builtins : Builtins} {imports : Imports}.

(** *** Scoring *)

(** What a tuple appended at line 208 holds. *)
Lemma score_song_Some qt tt yt s e :
  score_song qt tt yt s = Some e →
  sc_song e = s
  ∧ sc_dist e = compute_jaccard qt (split (provider_text (track_name s)))
  ∧ (SEARCH_SENSITIVITY <=? sc_dist e)%float = true
  ∧ (if nonempty yt then
       sc_artistDist e = compute_jaccard tt (split (provider_text (artist_name s)))
       ∧ sc_albumDist e =
           compute_jaccard tt
             (list_difference
                (list_difference (remove_dups (split (provider_text (collection_name s))))
                                 (split (provider_text (track_name s))))
                (split (provider_text (artist_name s))))
       ∧ sc_weightedDist e =
           (sc_albumDist e * 0.65 + sc_artistDist e * 0.3 + sc_dist e * 0.05)%float
     else sc_albumDist e = 0%float ∧ sc_artistDist e = 0%float
          ∧ sc_weightedDist e = 0%float).
Proof.
  unfold score_song. intros Hs.
  destruct (SEARCH_SENSITIVITY <=? _)%float eqn:Hfloor; [|done].
  destruct (nonempty yt); injection Hs as <-; simpl; done.
Qed.

Lemma score_song_None qt tt yt s :
  score_song qt tt yt s = None ↔
  (SEARCH_SENSITIVITY <=? compute_jaccard qt (split (provider_text (track_name s))))%float
  = false.
Proof.
  unfold score_song.
  destruct (SEARCH_SENSITIVITY <=? _)%float; [|done].
  by destruct (nonempty yt).
Qed.

Lemma elem_of_score_all song_name song_list yt_title e :
  e ∈ score_all song_name song_list yt_title ↔
  ∃ s, s ∈ song_list
       ∧ score_song (query_tokens song_name) (split (query_text yt_title))
           (query_text yt_title) s = Some e.
Proof. unfold score_all. apply list_elem_of_omap. Qed.

(** C1 (as amended): a candidate that passes the floor gets
    0.65*albumDist + 0.30*artistDist + 0.05*titleDist as its weighted
    distance when the normalized title hint is a non-empty string, and has
    albumDist, artistDist and weightedDist all 0 when the normalized hint
    is the empty string (so for the empty hint, once normalization maps the
    empty string to itself).  The sort rearranges the scored list and, when
    no score is a NaN, leaves it in descending order of the key
    (weightedDist, albumDist, artistDist, titleDist), each later component
    deciding between entries that agree on the earlier ones. *)
Theorem weighted_distance_and_sort song_name song_list yt_title :
  (∀ e, e ∈ score_all song_name song_list yt_title →
     if nonempty (query_text yt_title)
     then sc_weightedDist e =
            (sc_albumDist e * 0.65 + sc_artistDist e * 0.3 + sc_dist e * 0.05)%float
     else sc_albumDist e = 0%float ∧ sc_artistDist e = 0%float
          ∧ sc_weightedDist e = 0%float)
  ∧ (query_text "" = "" →
     ∀ e, e ∈ score_all song_name song_list "" →
       sc_albumDist e = 0%float ∧ sc_artistDist e = 0%float
       ∧ sc_weightedDist e = 0%float)
  ∧ sort_desc (score_all song_name song_list yt_title)
    ≡ₚ score_all song_name song_list yt_title
  ∧ (Forall (λ e, key_ok e = true) (score_all song_name song_list yt_title) →
     ∀ i j a b, i < j →
       sort_desc (score_all song_name song_list yt_title) !! i = Some a →
       sort_desc (score_all song_name song_list yt_title) !! j = Some b →
       key_ge a b).
Proof.
  split; [|split; [|split]].
  - intros e (s & _ & Hs)%elem_of_score_all.
    apply score_song_Some in Hs as (_ & _ & _ & Hs).
    by destruct (nonempty (query_text yt_title)); [destruct Hs as (_ & _ & ?)|].
  - intros Hempty e (s & _ & Hs)%elem_of_score_all.
    apply score_song_Some in Hs as (_ & _ & _ & Hs).
    by rewrite Hempty in Hs.
  - apply sort_desc_perm.
  - intros Hok i j a b. by apply sort_desc_descending.
Qed.

(** *** The relevance floor *)

Lemma score_all_songs song_name song_list yt_title :
  sc_song <$> score_all song_name song_list yt_title
  = filter (λ s, (SEARCH_SENSITIVITY <=? title_dist song_name s)%float = true) song_list.
Proof.
  unfold score_all.
  induction song_list as [|s l IH]; [done|].
  cbn [omap list_omap]. rewrite filter_cons.
  destruct (score_song _ _ _ s) as [e|] eqn:Hs.
  - apply score_song_Some in Hs as (Hsong & Hdist & Hfloor & _).
    rewrite Hdist in Hfloor. unfold title_dist.
    rewrite decide_True by done. by rewrite fmap_cons, Hsong, IH.
  - apply score_song_None in Hs. unfold title_dist.
    rewrite decide_False by (by rewrite Hs). exact IH.
Qed.

Lemma search_tokens_songs song_name song_list yt_title out :
  _search_tokens song_name song_list yt_title = Ok out →
  entry_song <$> out
  ≡ₚ cut_date <$> filter (λ s, (SEARCH_SENSITIVITY <=? title_dist song_name s)%float = true)
                    song_list.
Proof.
  unfold _search_tokens.
  destruct (promote _) as [res|] eqn:Hp; simpl; [|done].
  intros Hfp%final_pass_from_songs. rewrite Hfp.
  apply promote_window in Hp as (Hperm & _).
  by rewrite Hperm, sort_desc_perm, score_all_songs.
Qed.

Lemma search_tokens_defined song_name song_list yt_title :
  Forall (λ s, date_ok s = true) song_list →
  ∃ out, _search_tokens song_name song_list yt_title = Ok out.
Proof.
  intros Hok. unfold _search_tokens.
  assert (Hres : Forall (λ e, date_ok (sc_song e) = true)
                   (sort_desc (score_all song_name song_list yt_title))).
  { rewrite sort_desc_perm.
    apply (Forall_fmap sc_song (λ s, date_ok s = true)).
    rewrite (score_all_songs song_name song_list yt_title).
    apply Forall_forall. intros s [_ Hs]%list_elem_of_filter.
    rewrite Forall_forall in Hok. by apply Hok. }
  destruct (promote_defined _ Hres) as [res Hp]. rewrite Hp. simpl.
  apply final_pass_from_defined.
  apply promote_window in Hp as (Hperm & _). by rewrite Hperm.
Qed.

(** C2: the tuples collected by the scoring loop are, in order, those of
    the candidates whose title score against the (at most five) query
    tokens reaches the sensitivity; whenever the ranker returns, its list
    holds exactly these candidates (release dates cut), so that no returned
    record has a score strictly below the sensitivity, whatever its artist,
    album or release date, and every candidate at or above it is there; and
    the ranker does return when every release date is a string that is
    empty or readable. *)
Theorem relevance_floor song_name song_list yt_title :
  sc_song <$> score_all song_name song_list yt_title
  = filter (λ s, (SEARCH_SENSITIVITY <=? title_dist song_name s)%float = true) song_list
  ∧ (∀ out, _search_tokens song_name song_list yt_title = Ok out →
       entry_song <$> out
       ≡ₚ cut_date <$> filter (λ s, (SEARCH_SENSITIVITY <=? title_dist song_name s)%float = true)
                         song_list
       ∧ (∀ e, e ∈ out →
            (SEARCH_SENSITIVITY <=? title_dist song_name (entry_song e))%float = true
            ∧ (title_dist song_name (entry_song e) <? SEARCH_SENSITIVITY)%float = false)
       ∧ (∀ s, s ∈ song_list →
            (SEARCH_SENSITIVITY <=? title_dist song_name s)%float = true →
            cut_date s ∈ entry_song <$> out))
  ∧ (Forall (λ s, date_ok s = true) song_list →
     ∃ out, _search_tokens song_name song_list yt_title = Ok out).
Proof.
  split; [apply score_all_songs|]. split; [|apply search_tokens_defined].
  intros out Hout. pose proof (search_tokens_songs _ _ _ _ Hout) as Hperm.
  split; [done|]. split.
  - intros e He.
    assert (Hin : entry_song e ∈ entry_song <$> out) by by apply list_elem_of_fmap_2.
    rewrite Hperm in Hin. apply list_elem_of_fmap in Hin as (s & Hes & Hs).
    apply list_elem_of_filter in Hs as [Hfloor _].
    assert (Hd : title_dist song_name (entry_song e) = title_dist song_name s).
    { unfold title_dist. by rewrite Hes, cut_date_track_name. }
    rewrite Hd. split; [done|].
    destruct (title_dist song_name s <? SEARCH_SENSITIVITY)%float eqn:Hlt; [|done].
    apply float_ltb_not_leb in Hlt. congruence.
  - intros s Hs Hfloor. rewrite Hperm. apply list_elem_of_fmap_2.
    by apply list_elem_of_filter.
Qed.

(** *** Normalization *)

Lemma query_tokens_take song_name :
  query_tokens song_name = take 5 (split (query_text song_name)).
Proof.
  unfold query_tokens.
  destruct (Nat.ltb_spec 5 (length (split (query_text song_name)))); [done|].
  by rewrite take_ge.
Qed.

(** The scores of every tuple are computed from the token lists of the
    normalized query, hint and record fields. *)
Lemma scores_from_token_lists song_name song_list yt_title :
  (∀ e, e ∈ score_all song_name song_list yt_title →
       sc_dist e
       = compute_jaccard (take 5 (split (query_text song_name)))
           (split (provider_text (track_name (sc_song e))))
       ∧ (nonempty (query_text yt_title) = true →
          sc_artistDist e
          = compute_jaccard (split (query_text yt_title))
              (split (provider_text (artist_name (sc_song e))))
          ∧ sc_albumDist e
            = compute_jaccard (split (query_text yt_title))
                (list_difference
                   (list_difference
                      (remove_dups (split (provider_text (collection_name (sc_song e)))))
                      (split (provider_text (track_name (sc_song e)))))
                   (split (provider_text (artist_name (sc_song e))))))).
Proof.
  intros e (s & _ & Hs)%elem_of_score_all.
  apply score_song_Some in Hs as (-> & Hd & _ & Hrest).
  rewrite <- query_tokens_take. split; [done|].
  intros Hne. rewrite Hne in Hrest. by destruct Hrest as (? & ? & _).
Qed.

End Ranker_properties.

(** ** Deduplication *)

Section Dedup_properties.
Context {H : Type} `{hashing : Hashing H}.

Lemma dedup_loop_app items seen unique :
  dedup_loop items seen unique = unique ++ dedup_loop items seen [].
Proof.
  revert seen unique. induction items as [|x items IH]; intros seen unique; simpl.
  - by rewrite app_nil_r.
  - destruct (decide (hash x ∈ seen)); [done|].
    rewrite (IH _ (unique ++ [x])), (IH _ [x]). by rewrite <- app_assoc.
Qed.

Lemma dedup_loop_cons x items seen :
  dedup_loop (x :: items) seen []
  = if decide (hash x ∈ seen) then dedup_loop items seen []
    else x :: dedup_loop items ({[hash x]} ∪ seen) [].
Proof.
  simpl. destruct (decide (hash x ∈ seen)); [done|].
  by rewrite dedup_loop_app.
Qed.

Lemma elem_of_dedup_loop items seen x :
  x ∈ dedup_loop items seen [] ↔ (hash x ∉ seen) ∧ ∃ i, first_seen items i x.
Proof.
  revert seen. induction items as [|y items IH]; intros seen.
  - simpl. split; [by intros ?%elem_of_nil|]. by intros (_ & i & Hi & _).
  - rewrite dedup_loop_cons. destruct (decide (hash y ∈ seen)) as [Hy|Hy].
    + rewrite IH. split.
      * intros (Hx & i & Hi & Hfirst). split; [done|]. exists (S i). split; [done|].
        intros [|j] z Hj Hz; simpl in Hz.
        -- injection Hz as <-. congruence.
        -- apply (Hfirst j); [lia|done].
      * intros (Hx & i & Hi & Hfirst). split; [done|].
        destruct i as [|i]; simpl in Hi.
        -- injection Hi as <-. done.
        -- exists i. split; [done|]. intros j z Hj Hz. apply (Hfirst (S j)); [lia|done].
    + rewrite elem_of_cons, IH. split.
      * intros [->|(Hx & i & Hi & Hfirst)].
        -- split; [done|]. exists 0. split; [done|]. intros j z Hj. lia.
        -- split; [set_solver|]. exists (S i). split; [done|].
           intros [|j] z Hj Hz; simpl in Hz.
           ++ injection Hz as <-. set_solver.
           ++ apply (Hfirst j); [lia|done].
      * intros (Hx & i & Hi & Hfirst).
        destruct i as [|i]; simpl in Hi.
        -- injection Hi as <-. by left.
        -- right. split.
           ++ assert (hash y ≠ hash x) by (apply (Hfirst 0); [lia|done]). set_solver.
           ++ exists i. split; [done|]. intros j z Hj Hz.
              apply (Hfirst (S j)); [lia|done].
Qed.

Lemma dedup_loop_NoDup items seen : NoDup (hash <$> dedup_loop items seen []).
Proof.
  revert seen. induction items as [|y items IH]; intros seen.
  - simpl. constructor.
  - rewrite dedup_loop_cons. destruct (decide (hash y ∈ seen)); [done|].
    rewrite fmap_cons. constructor; [|done].
    intros (z & Hz & Hin)%list_elem_of_fmap.
    apply elem_of_dedup_loop in Hin as [Hin _]. set_solver.
Qed.

Lemma dedup_loop_sublist items seen : sublist (dedup_loop items seen []) items.
Proof.
  revert seen. induction items as [|y items IH]; intros seen.
  - simpl. constructor.
  - rewrite dedup_loop_cons. destruct (decide (hash y ∈ seen)).
    + by apply sublist_cons.
    + by apply sublist_skip.
Qed.

Lemma dedup_loop_covers items seen x :
  x ∈ items → hash x ∉ seen → hash x ∈ hash <$> dedup_loop items seen [].
Proof.
  revert seen. induction items as [|y items IH]; intros seen Hx Hseen.
  - by apply elem_of_nil in Hx.
  - rewrite dedup_loop_cons. destruct (decide (hash y ∈ seen)) as [Hy|Hy].
    + apply IH; [|done]. apply elem_of_cons in Hx as [->|Hx]; done.
    + rewrite fmap_cons. destruct (decide (hash x = hash y)) as [->|Hne]; [by left|].
      right. apply IH; [|set_solver].
      apply elem_of_cons in Hx as [->|Hx]; done.
Qed.

(** C5: the pool handed to the ranker holds no two records with the same
    identity hash; a record is in it exactly when it is the first of the
    collected records with its hash; every hash of a collected record is
    represented; the records that stay are in the order in which they were
    collected; of two records with the same hash the earlier one is kept
    and the later one is dropped. *)
Theorem dedup_keeps_first_seen (items : list Song) :
  NoDup (hash <$> to_be_sorted_unique items)
  ∧ (∀ x, x ∈ to_be_sorted_unique items ↔ ∃ i, first_seen items i x)
  ∧ (∀ x, x ∈ items → hash x ∈ hash <$> to_be_sorted_unique items)
  ∧ sublist (to_be_sorted_unique items) items
  ∧ (∀ a b, hash a = hash b → to_be_sorted_unique [a; b] = [a])
  ∧ (∀ a b, hash a ≠ hash b → to_be_sorted_unique [a; b] = [a; b]).
Proof.
  unfold to_be_sorted_unique. split; [apply dedup_loop_NoDup|]. split.
  { intros x. rewrite elem_of_dedup_loop. set_solver. }
  split. { intros x Hx. apply dedup_loop_covers; [done|set_solver]. }
  split; [apply dedup_loop_sublist|]. split.
  - intros a b Hab. simpl.
    rewrite decide_False by set_solver. simpl.
    rewrite decide_True by set_solver. done.
  - intros a b Hab. simpl.
    rewrite decide_False by set_solver. simpl.
    rewrite decide_False by set_solver. done.
Qed.

End Dedup_properties.

(** ** The driver *)

Section Driver_properties.
Context {builtins : Builtins} {imports : Imports} {configuration : Providers}
  {H : Type} `{hashing : Hashing H}.

Lemma providers_without_data filters q providers st :
  (∀ p action, p ∈ providers → GET_METADATA_ACTIONS !! p = Some action →
               no_data (action q)) →
  for_each (query_provider filters q) providers st
  = Ok (mk_pool (to_be_sorted st) (rest st)
          (broken_provider_counter st + length (unknown_providers providers))).
Proof.
  revert st. induction providers as [|p providers IH]; intros st Hnone.
  - simpl. destruct st. simpl. by rewrite Nat.add_0_r.
  - cbn [for_each]. unfold unknown_providers. rewrite filter_cons.
    destruct (GET_METADATA_ACTIONS !! p) as [action|] eqn:Hp.
    + assert (Hrec : recognised p = true) by (unfold recognised; by rewrite Hp).
      rewrite decide_False by congruence.
      unfold query_provider at 1. rewrite Hp.
      assert (Hq : no_data (action q)) by (apply (Hnone p); [by left|done]).
      assert (Hst : match action q with
                    | Some (song :: more) =>
                        rbind (_extend_to_be_sorted_and_rest (Some (song :: more))
                                 (to_be_sorted st) (rest st) filters)
                          (λ lists, Ok (mk_pool lists.1 lists.2 (broken_provider_counter st)))
                    | _ => Ok st
                    end = Ok st).
      { by destruct Hq as [-> | ->]. }
      rewrite Hst. cbn [rbind]. apply IH.
      intros p' action' Hp'. apply Hnone. by right.
    + assert (Hrec : recognised p = false) by (unfold recognised; by rewrite Hp).
      rewrite decide_True by done.
      unfold query_provider at 1. rewrite Hp. cbn [rbind]. rewrite IH.
      * cbn [to_be_sorted rest broken_provider_counter length].
        f_equal. f_equal. unfold unknown_providers. lia.
      * intros p' action' Hp'. apply Hnone. by right.
Qed.

Lemma aggregate_without_data filters variants :
  (∀ p action q, p ∈ METADATA_PROVIDERS → q ∈ variants →
                 GET_METADATA_ACTIONS !! p = Some action → no_data (action q)) →
  aggregate filters variants
  = Ok (mk_pool [] [] (length variants * length (unknown_providers METADATA_PROVIDERS))).
Proof.
  unfold aggregate.
  assert (Hgen : ∀ n,
    (∀ p action q, p ∈ METADATA_PROVIDERS → q ∈ variants →
                   GET_METADATA_ACTIONS !! p = Some action → no_data (action q)) →
    for_each (λ q, for_each (query_provider filters q) METADATA_PROVIDERS) variants
      (mk_pool [] [] n)
    = Ok (mk_pool [] []
            (n + length variants * length (unknown_providers METADATA_PROVIDERS)))).
  { induction variants as [|q variants IH]; intros n Hnone.
    - simpl. f_equal. f_equal. lia.
    - cbn [for_each]. rewrite providers_without_data.
      + cbn [rbind to_be_sorted rest broken_provider_counter]. rewrite IH.
        * f_equal. f_equal. simpl. lia.
        * intros p action q' Hp Hq'. apply Hnone; [done|by right].
      + intros p action Hp. apply Hnone; [done|by left]. }
  intros Hnone. by rewrite (Hgen 0 Hnone).
Qed.

Lemma unknown_providers_all providers :
  Forall (λ p, recognised p = false) providers → unknown_providers providers = providers.
Proof.
  intros Hall. unfold unknown_providers.
  induction Hall as [|p providers Hp Hall IH]; [done|].
  rewrite filter_cons, decide_True by done. by rewrite IH.
Qed.

Lemma unknown_providers_none providers :
  Forall (λ p, recognised p = true) providers → unknown_providers providers = [].
Proof.
  intros Hall. unfold unknown_providers.
  induction Hall as [|p providers Hp Hall IH]; [done|].
  rewrite filter_cons, decide_False by congruence. exact IH.
Qed.

Lemma SEARCH_SONG_without_data search_by song_name filters disable_sort yt_title :
  (∀ p action q, p ∈ METADATA_PROVIDERS →
                 q ∈ set_order (query_variants search_by yt_title) →
                 GET_METADATA_ACTIONS !! p = Some action → no_data (action q)) →
  SEARCH_SONG search_by song_name filters disable_sort yt_title
  = Ok (mk_report
          (bool_decide (length (set_order (query_variants search_by yt_title))
                        * length (unknown_providers METADATA_PROVIDERS)
                        = length METADATA_PROVIDERS))
          None).
Proof.
  intros Hnone. unfold SEARCH_SONG.
  by rewrite (aggregate_without_data _ _ Hnone).
Qed.

(** C9 (what the code does): when every lookup made for a configured
    provider and a visited variant gives no data ([None] after a failure,
    or an empty list), [SEARCH_SONG] returns [None] and raises nothing, and
    the critical message of the configuration failure is logged exactly
    when the number of variants times the number of unknown names is the
    number of configured names.  With recognised names only (and at least
    one) the message is not logged.  But a configuration that mixes
    recognised providers and unknown names gets [None] together with the
    message whenever the product hits the number of names, and a
    configuration of unknown names only gets [None] without the message as
    soon as the loop visits a number of variants other than one: the
    outcome without match is not distinct from the configuration
    failure. *)
Theorem no_data_returns_None search_by song_name filters disable_sort yt_title :
  (∀ p action q, p ∈ METADATA_PROVIDERS →
                 q ∈ set_order (query_variants search_by yt_title) →
                 GET_METADATA_ACTIONS !! p = Some action → no_data (action q)) →
  SEARCH_SONG search_by song_name filters disable_sort yt_title
  = Ok (mk_report
          (bool_decide ((length (set_order (query_variants search_by yt_title))
                         * length (unknown_providers METADATA_PROVIDERS))%nat
                        = length METADATA_PROVIDERS))
          None)
  ∧ (METADATA_PROVIDERS ≠ [] →
     Forall (λ p, recognised p = true) METADATA_PROVIDERS →
     SEARCH_SONG search_by song_name filters disable_sort yt_title
     = Ok (mk_report false None))
  ∧ ((length (set_order (query_variants search_by yt_title))
      * length (unknown_providers METADATA_PROVIDERS))%nat
     = length METADATA_PROVIDERS →
     SEARCH_SONG search_by song_name filters disable_sort yt_title
     = Ok (mk_report true None))
  ∧ (METADATA_PROVIDERS ≠ [] →
     Forall (λ p, recognised p = false) METADATA_PROVIDERS →
     length (set_order (query_variants search_by yt_title)) ≠ 1%nat →
     SEARCH_SONG search_by song_name filters disable_sort yt_title
     = Ok (mk_report false None)).
Proof.
  intros Hnone. rewrite (SEARCH_SONG_without_data _ _ _ _ _ Hnone).
  split; [done|]. split; [|split].
  - intros Hne Hall.
    rewrite (unknown_providers_none _ Hall). do 2 f_equal.
    apply bool_decide_eq_false. destruct METADATA_PROVIDERS; simpl; [done|lia].
  - intros Heq. do 2 f_equal. by apply bool_decide_eq_true.
  - intros Hne Hall Hlen.
    rewrite (unknown_providers_all _ Hall). do 2 f_equal.
    apply bool_decide_eq_false. destruct METADATA_PROVIDERS; [done|].
    cbn [length]. nia.
Qed.

(** C6 (what the code does): when no configured provider name is
    recognised, [SEARCH_SONG] returns [None]; the critical message is
    logged exactly when the number of variants times the number of
    providers equals the number of providers, because the counter of
    unrecognised names runs over every variant. *)
Theorem unrecognised_providers_outcome search_by song_name filters disable_sort yt_title :
  Forall (λ p, recognised p = false) METADATA_PROVIDERS →
  SEARCH_SONG search_by song_name filters disable_sort yt_title
  = Ok (mk_report
          (bool_decide (length (set_order (query_variants search_by yt_title))
                        * length METADATA_PROVIDERS
                        = length METADATA_PROVIDERS))
          None).
Proof.
  intros Hall. rewrite SEARCH_SONG_without_data.
  - by rewrite (unknown_providers_all _ Hall).
  - intros p action q Hp _ Hact. rewrite Forall_forall in Hall.
    specialize (Hall p Hp). unfold recognised in Hall. by rewrite Hact in Hall.
Qed.

End Driver_properties.

(** * The properties on explicit inputs *)

(** C1, on an explicit input: with the hint "band love song album two" the
    four sample songs give scores without NaN, and the first sorted entry
    may stand before the second. *)
Lemma weighted_distance_and_sort_witness :
  ∃ a b,
    sort_desc (score_all (builtins := ascii_builtins) (imports := sample_imports) "love song"
                 [song_a; song_b; song_c; song_d] "band love song album two") !! 0 = Some a
    ∧ sort_desc (score_all (builtins := ascii_builtins) (imports := sample_imports) "love song"
                   [song_a; song_b; song_c; song_d] "band love song album two") !! 1 = Some b
    ∧ key_ge a b.
Proof.
  destruct (weighted_distance_and_sort (builtins := ascii_builtins) (imports := sample_imports) "love song"
              [song_a; song_b; song_c; song_d] "band love song album two")
    as (_ & _ & _ & Hsorted).
  eexists _, _. split; [vm_compute; reflexivity|]. split; [vm_compute; reflexivity|].
  apply (λ Hok, Hsorted Hok 0 1); [|lia|vm_compute; reflexivity..].
  vm_compute. repeat constructor.
Defined.

(** C1 as stated fails: the hint "!!!" is present, the candidate passes the
    floor with a title score of 1, and its weighted distance is 0, not
    0.65*0 + 0.30*0 + 0.05*1. *)
Lemma weighted_distance_counterexample :
  nonempty "!!!" = true
  ∧ score_all (builtins := ascii_builtins) (imports := sample_imports) "love song" [song_a] "!!!"
    = [mk_scored song_a 1 0 0 0]
  ∧ (0 =? 0 * 0.65 + 0 * 0.3 + 1 * 0.05)%float = false.
Proof. repeat split; vm_compute; reflexivity. Qed.

(** C2, on an explicit input: the ranker returns for the four sample songs,
    and no returned record scores below the sensitivity; the song "Other",
    whose score is 0, is not among them. *)
Lemma relevance_floor_witness :
  ∃ out,
    _search_tokens (builtins := ascii_builtins) (imports := sample_imports) "love song"
      [song_a; song_b; song_c; song_d] "" = Ok out
    ∧ (∀ e, e ∈ out →
         (SEARCH_SENSITIVITY (Imports := sample_imports)
          <=? title_dist (builtins := ascii_builtins) (imports := sample_imports) "love song" (entry_song e))%float = true
         ∧ (title_dist (builtins := ascii_builtins) (imports := sample_imports) "love song" (entry_song e)
            <? SEARCH_SENSITIVITY (Imports := sample_imports))%float = false)
    ∧ cut_date song_c ∈ entry_song <$> out.
Proof.
  destruct (relevance_floor (builtins := ascii_builtins) (imports := sample_imports) "love song"
              [song_a; song_b; song_c; song_d] "") as (_ & Hout & Hdefined).
  destruct Hdefined as [out Hrun].
  { repeat (apply Forall_cons; split; [vm_compute; reflexivity|]). by apply Forall_nil. }
  exists out. split; [done|].
  destruct (Hout out Hrun) as (_ & Hfloor & Hkept). split; [done|].
  apply Hkept; [|vm_compute; reflexivity].
  do 2 right. left.
Defined.

(** C3, on an explicit input: a tuple without release date followed by a
    tuple dated 2001-05-01; the second is first after the pass and in the
    returned list. *)
Lemma promotion_of_second_candidate_witness :
  promote [mk_scored song_a 1 0 0 0; mk_scored song_b 1 0 0 0]
  = Ok [mk_scored song_b 1 0 0 0; mk_scored song_a 1 0 0 0]
  ∧ rbind (promote [mk_scored song_a 1 0 0 0; mk_scored song_b 1 0 0 0]) final_pass
    = Ok [Plain (set_release_date song_b "2001-05-01"); Plain (set_release_date song_a "")].
Proof.
  destruct (promotion_of_second_candidate
              (mk_scored song_a 1 0 0 0) (mk_scored song_b 1 0 0 0) [])
    as (_ & _ & Htwo & Hout & _); [vm_compute; reflexivity..|].
  split; [exact Htwo|].
  exact (Hout "2001-05-01" eq_refl eq_refl).
Defined.

(** C3 as stated fails: after the sort the first tuple has an empty release
    date and the second is dated 2001-05-01, within the threshold and the
    window; the ranked output starts with the third candidate, dated 1999. *)
Lemma promotion_counterexample :
  sort_desc (score_all (builtins := ascii_builtins) (imports := sample_imports) "love song"
               [song_a; song_b; song_c] "")
  = [mk_scored song_a 1 0 0 0; mk_scored song_b 1 0 0 0; mk_scored song_c 1 0 0 0]
  ∧ date_missing song_a = true
  ∧ release_date song_b = Some "2001-05-01"
  ∧ (sc_weightedDist (mk_scored song_b 1 0 0 0)
     <? sc_weightedDist (mk_scored song_a 1 0 0 0) * 0.7)%float = false
  ∧ _search_tokens (builtins := ascii_builtins) (imports := sample_imports) "love song" [song_a; song_b; song_c] ""
    = Ok [Plain (set_release_date song_c "1999-01-01"); Plain song_a; Plain song_b].
Proof. repeat split; vm_compute; reflexivity. Qed.

(** C4 (the code at the failing inputs): a single candidate with an empty
    release date comes back as its scored tuple, not as a record; and a
    candidate without release date that ends behind the first position makes
    the last loop raise [AttributeError]. *)
Theorem first_entry_keeps_its_tuple :
  _search_tokens (builtins := ascii_builtins) (imports := sample_imports) "love song" [song_a] ""
  = Ok [Tuple (mk_scored song_a 1 0 0 0)]
  ∧ _search_tokens (builtins := ascii_builtins) (imports := sample_imports) "love song" [song_b; song_undated] ""
    = Raise AttributeError.
Proof. split; vm_compute; reflexivity. Qed.

(** C5, on an explicit input: of the two records with the hash of
    "Love Song" by "Band" the earlier one stays, and "Other" stays behind
    it. *)
Lemma dedup_keeps_first_seen_witness :
  to_be_sorted_unique (hashing := track_artist_hashing) [song_a; song_b] = [song_a]
  ∧ to_be_sorted_unique (hashing := track_artist_hashing) [song_a; song_d]
    = [song_a; song_d]
  ∧ song_a ∈ to_be_sorted_unique (hashing := track_artist_hashing)
               [song_a; song_d; song_b].
Proof.
  destruct (dedup_keeps_first_seen (hashing := track_artist_hashing)
              [song_a; song_d; song_b]) as (_ & Hfirst & _ & _ & Hsame & Hother).
  split; [by apply Hsame|]. split; [by apply Hother|].
  apply Hfirst. exists 0. split; [done|]. intros j y Hj. lia.
Defined.

(** C6, on the failing input: the query "a b c d" has five variants, the
    only configured provider is unknown, the counter ends at 5 and not at 1:
    no critical message, and [None] is returned, exactly as when a recognised
    provider finds nothing. *)
Lemma unrecognised_providers_witness :
  SEARCH_SONG (builtins := ascii_builtins) (imports := sample_imports) (configuration := unknown_provider_config)
    (hashing := track_artist_hashing) "a b c d" "a b c d" [] false ""
  = Ok (mk_report false None)
  ∧ SEARCH_SONG (builtins := ascii_builtins) (imports := sample_imports) (configuration := silent_provider_config)
      (hashing := track_artist_hashing) "a b c d" "a b c d" [] false ""
    = Ok (mk_report false None).
Proof.
  split; [|vm_compute; reflexivity].
  rewrite (unrecognised_providers_outcome (builtins := ascii_builtins) (imports := sample_imports)
             (configuration := unknown_provider_config)
             (hashing := track_artist_hashing));
    [|vm_compute; repeat constructor].
  vm_compute. reflexivity.
Defined.

(** C7, on an explicit input: the six-word query with the default empty
    hint has exactly the six variants. *)
Lemma query_variants_of_query_witness :
  query_variants (builtins := ascii_builtins) "a b c d e f" ""
  = {[ "a b c d e f"; "a b c d e"; "a b c"; "a b"; "a"; "c d" ]}.
Proof.
  destruct (query_variants_of_query (builtins := ascii_builtins) "a b c d e f" "") as (_ & Hsix & _ & _ & Hhint & _).
  rewrite (Hsix "a" "b" "c" "d" "e" "f" eq_refl).
  rewrite Hhint by (right; vm_compute; lia).
  cbn [join]. by rewrite (right_id_L ∅ (∪)).
Defined.

(** C7 as stated fails: with the hint "u v w x" the six-word query has a
    variant, "u v w", that is none of the six. *)
Lemma query_variants_counterexample :
  split (Builtins := ascii_builtins) "a b c d e f" = ["a"; "b"; "c"; "d"; "e"; "f"]
  ∧ "u v w" ∈ query_variants (builtins := ascii_builtins) "a b c d e f" "u v w x"
  ∧ "u v w" ∉ ({[ "a b c d e f"; "a b c d e"; "a b c"; "a b"; "a"; "c d" ]} : gset string).
Proof.
  split; [reflexivity|]. split.
  - apply (bool_decide_unpack _). vm_compute. exact I.
  - apply (bool_decide_unpack _). vm_compute. exact I.
Qed.

(** C8 (the code at the failing input): the same text is not normalized
    alike on the two sides.  The query is transliterated first and
    lower-cased third, as stated; a field of a record is lower-cased first
    and transliterated last.  For "xx Thé" as the query and as the track
    name, the query keeps the token "xx" (the transliterated "The" goes as
    a stopword), and the track name keeps "xx" and "the" (the accented word
    is no stopword when the stopwords go, and is transliterated after
    that): the record whose title is the query itself gets the title
    distance 0.5, not 1.  The stated order, applied to the track name,
    gives the token of the query. *)
Theorem same_text_normalized_differently :
  query_tokens (builtins := ascii_builtins) (imports := sample_imports) xx_the_accented
  = ["xx"]
  ∧ split (Builtins := ascii_builtins)
      (provider_text (builtins := ascii_builtins) (imports := sample_imports) xx_the_accented)
    = ["xx"; "the"]
  ∧ split (Builtins := ascii_builtins)
      (query_text (builtins := ascii_builtins) (imports := sample_imports)
         (re_sub_amp (re_sub_parens xx_the_accented)))
    = ["xx"]
  ∧ title_dist (builtins := ascii_builtins) (imports := sample_imports)
      xx_the_accented song_accented = 0.5%float
  ∧ score_all (builtins := ascii_builtins) (imports := sample_imports)
      xx_the_accented [song_accented] ""
    = [mk_scored song_accented 0.5 0 0 0].
Proof. repeat split; vm_compute; reflexivity. Qed.

(** C9, on the failing input: four recognised providers find nothing for
    the five variants of "a b c d", and the fifth configured name is
    unknown; [None] comes back and the critical message of the
    configuration failure is logged. *)
Lemma no_data_returns_None_witness :
  SEARCH_SONG (builtins := ascii_builtins) (imports := sample_imports)
    (configuration := silent_mixed_config)
    (hashing := track_artist_hashing) "a b c d" "a b c d" [] false ""
  = Ok (mk_report true None).
Proof.
  destruct (no_data_returns_None (builtins := ascii_builtins) (imports := sample_imports)
              (configuration := silent_mixed_config)
              (hashing := track_artist_hashing) "a b c d" "a b c d" [] false "")
    as (_ & _ & Hfatal & _).
  - intros p action q _ _ Haction.
    unfold GET_METADATA_ACTIONS, list_to_map in Haction. cbn [foldr uncurry] in Haction.
    repeat (apply lookup_insert_Some in Haction as [[_ <-]|[_ Haction]];
            [first [by left|by right]|]).
    by rewrite lookup_empty in Haction.
  - apply Hfatal. vm_compute. reflexivity.
Defined.
(** * Further properties *)

(** ** The release-date pass on undated entries *)

Lemma promote_loop_beyond (indices : list nat) st :
  Forall (λ i, (10 ≤ i)%nat) indices → promote_loop indices st = Ok st.
Proof.
  induction 1 as [|i indices Hi Hall IH]; [done|].
  cbn [promote_loop]. destruct (Nat.ltb_spec i 10); [lia|done].
Qed.

(** One turn on an undated top: the entry under the index goes to the top
    and the old top takes its slot. *)
Lemma promote_body_undated pre x y post t :
  date_missing (sc_song x) = true → undated_in_reach y →
  promote_body (S (length pre)) (x :: pre ++ y :: post, t)
  = Ok (Next, (y :: (pre ++ [x]) ++ post, (sc_weightedDist y * 0.7)%float)).
Proof.
  intros Hx [Hy Hreach]. unfold promote_body.
  assert (Hcur : (x :: pre ++ y :: post) !! S (length pre) = Some y)
    by (change ((pre ++ y :: post) !! length pre = Some y); by apply list_lookup_middle).
  rewrite Hcur. cbn [lookup list_lookup].
  rewrite Hx, Hreach, Hy. cbn [negb andb]. unfold swap_top.
  change (<[0:=y]> (x :: pre ++ y :: post)) with (y :: pre ++ y :: post).
  change (<[S (length pre):=x]> (y :: pre ++ y :: post))
    with (y :: <[length pre:=x]> (pre ++ y :: post)).
  rewrite insert_app_r_alt by lia.
  rewrite Nat.sub_diag. cbn [insert list_insert]. by rewrite <- app_assoc.
Qed.

Lemma promote_loop_undated post pre x t :
  date_missing (sc_song x) = true → Forall undated_in_reach post →
  ∃ pre' x' post' t',
    promote_loop (seq (S (length pre)) (length post)) (x :: pre ++ post, t)
    = Ok (x' :: pre' ++ post', t')
    ∧ pre' ++ x' :: post' = pre ++ x :: post
    ∧ length pre' = Nat.max (length pre) (Nat.min (length pre + length post) 9).
Proof.
  revert pre x t. induction post as [|y post IH]; intros pre x t Hx Hpost.
  - exists pre, x, [], t. simpl. split; [done|]. split; [done|lia].
  - apply Forall_cons in Hpost as [Hy Hpost].
    destruct (Nat.ltb_spec (S (length pre)) 10) as [Hin|Hout].
    + cbn [length seq promote_loop].
      destruct (Nat.ltb_spec (S (length pre)) 10); [|lia].
      cbn [Nat.eqb]. rewrite (promote_body_undated pre x y post t Hx Hy).
      destruct (IH (pre ++ [x]) y (sc_weightedDist y * 0.7)%float (proj1 Hy) Hpost)
        as (pre' & x' & post' & t' & Hloop & Hparts & Hlen).
      rewrite length_app in Hloop, Hlen. simpl in Hloop, Hlen.
      rewrite Nat.add_1_r in Hloop.
      exists pre', x', post', t'. split; [exact Hloop|]. split.
      * rewrite Hparts. by rewrite <- app_assoc.
      * simpl. lia.
    + rewrite promote_loop_beyond.
      * exists pre, x, (y :: post), t. split; [done|]. split; [done|]. simpl. lia.
      * apply Forall_forall. intros i Hi%elem_of_seq. lia.
Qed.

(** X1: when no entry of the sorted list has a release date (and no score
    is negative or NaN), every turn of the pass swaps the entry it looks at
    with the top: the pass ends with the entry of the last index it visits
    (index 9, or the last one of a shorter list) in first position, the
    entries before it moved one slot down, and the rest in place. *)
Theorem promote_all_undated res x :
  Forall undated_in_reach res →
  res !! window_end res = Some x →
  promote res = Ok (x :: take (window_end res) res ++ drop (S (window_end res)) res).
Proof.
  intros Hall Hx. destruct res as [|x0 post]; [done|].
  apply Forall_cons in Hall as [[Hx0 _] Hpost].
  unfold promote. cbn [length seq promote_loop Nat.ltb Nat.leb Nat.eqb].
  destruct (promote_loop_undated post [] x0 (sc_weightedDist x0 * 0.7)%float Hx0 Hpost)
    as (pre' & x' & post' & t' & Hloop & Hparts & Hlen).
  cbn [length app] in Hloop, Hparts, Hlen. rewrite Hloop. cbn [rbind fst].
  assert (Hend : window_end (x0 :: post) = length pre').
  { unfold window_end. cbn [length]. lia. }
  rewrite Hend in Hx |- *. rewrite <- Hparts in Hx |- *.
  rewrite list_lookup_middle in Hx by done. injection Hx as <-.
  rewrite take_app_length. do 3 f_equal.
  rewrite (cons_middle x' pre' post'), app_assoc.
  symmetry. apply drop_app_length'. rewrite length_app. simpl. lia.
Qed.

(** X2: a top entry with a release date is never displaced by entries
    without one: the pass returns the list as it was. *)
Theorem promote_dated_top_stays top rest :
  date_missing (sc_song top) = false →
  Forall (λ e, date_missing (sc_song e) = true) rest →
  promote (top :: rest) = Ok (top :: rest).
Proof.
  intros Htop Hrest. unfold promote.
  assert (Hloop : ∀ indices t,
            Forall (λ i, (i < length (top :: rest))%nat) indices →
            ∃ t', promote_loop indices (top :: rest, t) = Ok (top :: rest, t')).
  { induction indices as [|i indices IH]; intros t Hidx; [by eauto|].
    apply Forall_cons in Hidx as [Hi Hidx]. cbn [promote_loop].
    destruct (i <? 10)%nat; [|by apply IH].
    destruct (Nat.eqb_spec i 0) as [|Hi0]; [by apply IH|].
    destruct i as [|k]; [done|].
    destruct (lookup_lt_is_Some_2 rest k ltac:(simpl in Hi; lia)) as [cur Hcur].
    unfold promote_body.
    change ((top :: rest) !! S k) with (rest !! k). rewrite Hcur.
    cbn [lookup list_lookup]. rewrite Htop.
    rewrite Forall_forall in Hrest.
    rewrite (Hrest cur (list_elem_of_lookup_2 _ _ _ Hcur)). cbn [negb andb].
    destruct (_ <? _)%float; [by eauto|]. by apply IH. }
  destruct (Hloop (seq 0 (length (top :: rest))) (sc_weightedDist top * 0.7)%float)
    as [t' ->]; [|done].
  apply Forall_forall. intros i Hi%elem_of_seq. lia.
Qed.


(** ** The sort keeps ties in order *)

Lemma StronglySorted_weaken {A : Type} (R R' : A → A → Prop) (l : list A) :
  (∀ a b, a ∈ l → b ∈ l → R a b → R' a b) → StronglySorted R l → StronglySorted R' l.
Proof.
  intros Himpl Hs. induction Hs as [|x l Hs IH Hx]; constructor.
  - apply IH. intros a b Ha Hb. apply Himpl; by right.
  - apply Forall_forall. intros y Hy. rewrite Forall_forall in Hx.
    apply Himpl; [by left|by right|by apply Hx].
Qed.

Lemma StronglySorted_pairwise {A : Type} (R : A → A → Prop) (l : list A) :
  (∀ a b, a ∈ l → b ∈ l → R a b) → StronglySorted R l.
Proof.
  induction l as [|x l IH]; intros Hall; constructor.
  - apply IH. intros a b Ha Hb. apply Hall; by right.
  - apply Forall_forall. intros y Hy. apply Hall; [by left|by right].
Qed.

Lemma filter_nothing {A : Type} (P : A → Prop) `{∀ x, Decision (P x)} (l : list A) :
  (∀ x, x ∈ l → ¬ P x) → filter P l = [].
Proof.
  induction l as [|x l IH]; intros Hnone; [done|].
  rewrite filter_cons, decide_False by (apply Hnone; by left).
  apply IH. intros y Hy. apply Hnone. by right.
Qed.

(** With keys that are not NaN, two entries have the same key when the
    comparison of their keys says so. *)
Lemma same_key_cmp a b :
  key_ok a = true → key_ok b = true →
  same_key a b = match key_cmp a b with Eq => true | _ => false end.
Proof.
  intros Ha Hb. unfold same_key.
  rewrite (key_ltb_cmp a b), (key_ltb_cmp b a) by done.
  rewrite (oc_antisym _ order_cmp_key a b). by destruct (key_cmp a b).
Qed.

(** [x] enters behind entries of a strictly greater key only. *)
Lemma insert_desc_split x l :
  ∃ l1 l2, l = l1 ++ l2 ∧ insert_desc x l = l1 ++ x :: l2
           ∧ Forall (λ y, key_ltb (sort_key x) (sort_key y) = true) l1.
Proof.
  induction l as [|y l (l1 & l2 & Hl & Hins & Hgt)]; cbn [insert_desc].
  - exists [], []. by repeat split.
  - destruct (key_ltb (sort_key x) (sort_key y)) eqn:Hxy.
    + exists (y :: l1), l2. rewrite Hins, Hl. repeat split; [done..|].
      by apply Forall_cons.
    + exists [], (y :: l). by repeat split.
Qed.

(** Among the entries of one key, [x] enters in front. *)
Lemma insert_desc_same_key a x l :
  key_ok a = true → key_ok x = true → Forall (λ y, key_ok y = true) l →
  filter (λ e, same_key a e = true) (insert_desc x l)
  = filter (λ e, same_key a e = true) (x :: l).
Proof.
  intros Ha Hx Hl. destruct (insert_desc_split x l) as (l1 & l2 & -> & -> & Hgt).
  rewrite filter_cons, !filter_app, filter_cons.
  destruct (decide (same_key a x = true)) as [Hax|Hax]; [|done].
  rewrite (filter_nothing _ l1); [done|].
  intros y Hy. apply Forall_app in Hl as [Hl1 _].
  rewrite Forall_forall in Hl1, Hgt. specialize (Hl1 y Hy). specialize (Hgt y Hy).
  rewrite same_key_cmp in Hax by done. rewrite same_key_cmp by done.
  rewrite key_ltb_cmp in Hgt by done.
  destruct (key_cmp a x) eqn:Eax; [|done..].
  rewrite (oc_eq_l _ order_cmp_key a x y Eax). by destruct (key_cmp x y).
Qed.

Lemma sort_desc_same_key a l :
  key_ok a = true → Forall (λ y, key_ok y = true) l →
  filter (λ e, same_key a e = true) (sort_desc l) = filter (λ e, same_key a e = true) l.
Proof.
  intros Ha. induction l as [|x l IH]; intros Hl; [done|].
  apply Forall_cons in Hl as [Hx Hl].
  cbn [sort_desc foldr]. fold (sort_desc l).
  rewrite insert_desc_same_key; [|done..|].
  - rewrite !filter_cons, IH by done. done.
  - apply Forall_forall. intros y Hy. rewrite sort_desc_perm in Hy.
    rewrite Forall_forall in Hl. by apply Hl.
Qed.

(** X4: the sort is stable.  For scores that are not NaN, the entries that
    have the same key as a given entry stand in the sorted list in the
    order they had before the sort, whatever the order of the list was; so
    a list already in descending order of the key is left as it is, and
    sorting a sorted list changes nothing. *)
Theorem sort_keeps_ties_in_order (l : list scored) :
  Forall (λ e, key_ok e = true) l →
  (∀ a, key_ok a = true →
        filter (λ e, same_key a e = true) (sort_desc l)
        = filter (λ e, same_key a e = true) l)
  ∧ sort_desc l ≡ₚ l
  ∧ StronglySorted (λ a b, key_ltb (sort_key a) (sort_key b) = false) (sort_desc l)
  ∧ (StronglySorted (λ a b, key_ltb (sort_key a) (sort_key b) = false) l → sort_desc l = l)
  ∧ sort_desc (sort_desc l) = sort_desc l.
Proof.
  intros Hok.
  assert (Hsorted : StronglySorted (λ a b, key_ltb (sort_key a) (sort_key b) = false)
                      (sort_desc l)).
  { apply (StronglySorted_weaken (λ a b, key_cmp a b ≠ Lt)); [|by apply sort_desc_sorted].
    intros a b Ha Hb Hge. rewrite sort_desc_perm in Ha, Hb.
    rewrite Forall_forall in Hok.
    rewrite key_ltb_cmp by (by apply Hok). by destruct (key_cmp a b). }
  split; [intros a Ha; by apply sort_desc_same_key|].
  split; [apply sort_desc_perm|]. split; [done|].
  split; [apply sort_desc_stable|by apply sort_desc_stable].
Qed.

(** ** [filterSongs] as a partition *)

Lemma filter_everything {A : Type} (P : A → Prop) `{∀ x, Decision (P x)} (l : list A) :
  (∀ x, x ∈ l → P x) → filter P l = l.
Proof.
  induction l as [|x l IH]; intros Hall; [done|].
  rewrite filter_cons, decide_True by (apply Hall; by left).
  f_equal. apply IH. intros y Hy. apply Hall. by right.
Qed.

(** X5: with two filters or more, [filterSongs] returns a rearrangement of
    its input: nothing is dropped or added; the songs that pass come first
    and each group keeps its order; filters after the second are not read;
    filtering the result again changes nothing; and two [None] filters give
    the input back. *)
Theorem filterSongs_partition (data : list Song) (f0 f1 : option string)
    (more : list (option string)) :
  ∃ l,
    filterSongs (Some data) (f0 :: f1 :: more) = Ok (Some l)
    ∧ l ≡ₚ data
    ∧ (∃ n, Forall (λ s, filter_matches f0 f1 s = true) (take n l)
            ∧ Forall (λ s, filter_matches f0 f1 s ≠ true) (drop n l))
    ∧ filter (λ s, filter_matches f0 f1 s = true) l
      = filter (λ s, filter_matches f0 f1 s = true) data
    ∧ filter (λ s, filter_matches f0 f1 s ≠ true) l
      = filter (λ s, filter_matches f0 f1 s ≠ true) data
    ∧ filterSongs (Some data) [f0; f1] = Ok (Some l)
    ∧ filterSongs (Some l) (f0 :: f1 :: more) = Ok (Some l)
    ∧ (f0 = None → f1 = None → l = data).
Proof.
  set (yes := filter (λ s, filter_matches f0 f1 s = true) data).
  set (no := filter (λ s, filter_matches f0 f1 s ≠ true) data).
  assert (Hyes : filter (λ s, filter_matches f0 f1 s = true) (yes ++ no) = yes).
  { rewrite filter_app, filter_everything, filter_nothing; [by rewrite app_nil_r|..].
    - intros s Hs. by apply list_elem_of_filter in Hs as [? _].
    - intros s Hs. by apply list_elem_of_filter in Hs as [? _]. }
  assert (Hno : filter (λ s, filter_matches f0 f1 s ≠ true) (yes ++ no) = no).
  { rewrite filter_app, filter_nothing, filter_everything; [done|..].
    - intros s Hs. by apply list_elem_of_filter in Hs as [? _].
    - intros s Hs Hn. apply list_elem_of_filter in Hs as [? _]. by apply Hn. }
  exists (yes ++ no). unfold filterSongs. rewrite !filter_loop_two. cbn [rbind fst snd app].
  fold yes no. rewrite Hyes, Hno.
  split; [done|]. split; [apply filter_app_complement|]. split.
  { exists (length yes). rewrite take_app_length, drop_app_length.
    split; apply Forall_forall; intros s Hs; by apply list_elem_of_filter in Hs as [? _]. }
  split; [done|]. split; [done|]. split; [done|]. split; [done|].
  intros -> ->. unfold yes, no.
  rewrite filter_everything, filter_nothing; [by rewrite app_nil_r|..].
  - intros s _ Hn. by apply Hn.
  - done.
Qed.

(** ** What the ranker returns *)

Lemma split_T_no_T s : Forall (λ c, c ≠ "T"%char) (list_ascii_of_string (split_T s)).
Proof.
  induction s as [|c s IH]; simpl; [constructor|].
  destruct (Ascii.eqb_spec c "T"); simpl; [constructor|]. by constructor.
Qed.

(** From the second slot on the last loop leaves records, each with a
    release date cut before the time separator. *)
Lemma final_pass_from_plain i res out :
  final_pass_from (S i) res = Ok out →
  Forall (λ e, ∃ s d, e = Plain s ∧ release_date s = Some d
                      ∧ Forall (λ c, c ≠ "T"%char) (list_ascii_of_string d)) out.
Proof.
  revert i out. induction res as [|x res IH]; intros i out Hfp; cbn [final_pass_from] in Hfp.
  - injection Hfp as <-. constructor.
  - rewrite andb_false_r in Hfp.
    destruct (release_date (sc_song x)) as [d|]; [|done].
    destruct (final_pass_from (S (S i)) res) as [tl|] eqn:Htl; [|done].
    injection Hfp as <-. constructor; [|by eapply IH].
    eexists _, _. split; [done|]. split; [done|]. apply split_T_no_T.
Qed.

Section Ranker_results.
Context {builtins : Builtins} {imports : Imports}.

Lemma search_tokens_nothing_passes song_name song_list yt_title :
  Forall (λ s, (SEARCH_SENSITIVITY <=? title_dist song_name s)%float = false) song_list →
  _search_tokens song_name song_list yt_title = Ok [].
Proof.
  intros Hall. unfold _search_tokens.
  assert (Hres : score_all song_name song_list yt_title = []).
  { apply (fmap_nil_inv sc_song). rewrite score_all_songs.
    apply filter_nothing. intros s Hs. rewrite Forall_forall in Hall.
    by rewrite (Hall s Hs). }
  by rewrite Hres.
Qed.

Lemma search_tokens_nil_inv song_name song_list yt_title :
  _search_tokens song_name song_list yt_title = Ok [] →
  Forall (λ s, (SEARCH_SENSITIVITY <=? title_dist song_name s)%float = false) song_list.
Proof.
  intros Hperm%search_tokens_songs. rewrite fmap_nil in Hperm.
  apply Permutation_nil_l in Hperm. symmetry in Hperm. apply fmap_nil_inv in Hperm.
  apply Forall_forall. intros s Hs.
  destruct (SEARCH_SENSITIVITY <=? title_dist song_name s)%float eqn:Hfloor; [|done].
  exfalso. by eapply (filter_nil_not_elem_of _ _ s Hperm).
Qed.

(** X6: the ranker returns the empty list, without any error, exactly when
    no candidate reaches the sensitivity (so also for an empty candidate
    list): the release dates of dropped candidates are never read. *)
Theorem ranker_returns_empty_list song_name song_list yt_title :
  _search_tokens song_name song_list yt_title = Ok []
  ↔ Forall (λ s, (SEARCH_SENSITIVITY <=? title_dist song_name s)%float = false) song_list.
Proof.
  split; [apply search_tokens_nil_inv|apply search_tokens_nothing_passes].
Qed.

(** X7: in a list that the ranker returns, no release date contains the
    time separator [T]; every entry after the first is a record with a
    release date; and the first entry is either a record with a release
    date or a scored tuple whose record has none (or an empty one). *)
Theorem returned_dates_have_no_time song_name song_list yt_title out :
  _search_tokens song_name song_list yt_title = Ok out →
  (∀ e d, e ∈ out → release_date (entry_song e) = Some d →
          Forall (λ c, c ≠ "T"%char) (list_ascii_of_string d))
  ∧ (∀ i e, out !! S i = Some e → ∃ s d, e = Plain s ∧ release_date s = Some d)
  ∧ (∀ e, out !! 0 = Some e →
          match e with
          | Tuple t => date_missing (sc_song t) = true
          | Plain s => ∃ d, release_date s = Some d
          end).
Proof.
  unfold _search_tokens.
  destruct (promote _) as [res|]; cbn [rbind]; [|done].
  unfold final_pass. destruct res as [|x res]; cbn [final_pass_from].
  { intros [= <-]. split; [by intros e d ?%elem_of_nil|]. done. }
  rewrite andb_true_r.
  destruct (date_missing (sc_song x)) eqn:Hm.
  - destruct (final_pass_from 1 res) as [tl|] eqn:Htl; cbn [rbind]; [|done].
    intros [= <-]. apply final_pass_from_plain in Htl. rewrite Forall_forall in Htl.
    split; [|split].
    + intros e d [->|He]%elem_of_cons Hd.
      * simpl in Hd. unfold date_missing in Hm. rewrite Hd in Hm.
        destruct d; [constructor|done].
      * destruct (Htl e He) as (s & d' & -> & Hd' & HnoT). simpl in Hd. congruence.
    + intros i e He. simpl in He.
      destruct (Htl e (list_elem_of_lookup_2 _ _ _ He)) as (s & d & -> & Hd & _). by eauto.
    + by intros e [= <-].
  - destruct (release_date (sc_song x)) as [d0|] eqn:Hd0; [|done].
    destruct (final_pass_from 1 res) as [tl|] eqn:Htl; cbn [rbind]; [|done].
    intros [= <-]. apply final_pass_from_plain in Htl. rewrite Forall_forall in Htl.
    split; [|split].
    + intros e d [->|He]%elem_of_cons Hd.
      * simpl in Hd. injection Hd as <-. apply split_T_no_T.
      * destruct (Htl e He) as (s & d' & -> & Hd' & HnoT). simpl in Hd. congruence.
    + intros i e He. simpl in He.
      destruct (Htl e (list_elem_of_lookup_2 _ _ _ He)) as (s & d & -> & Hd & _). by eauto.
    + intros e [= <-]. by eexists.
Qed.

End Ranker_results.

(** ** The pool that [SEARCH_SONG] builds *)

Lemma extend_Ok d tbs rs filters lists :
  _extend_to_be_sorted_and_rest (Some d) tbs rs filters = Ok lists →
  ∃ l, l ≡ₚ d ∧ lists = (tbs ++ l, rs ++ l) ∧ (filters = [] → l = d).
Proof.
  unfold _extend_to_be_sorted_and_rest.
  destruct filters as [|f0 [|f1 more]]; cbn [truthy rbind].
  - intros [= <-]. by exists d.
  - destruct d as [|s d]; [|done]. intros [= <-]. by exists [].
  - unfold filterSongs. rewrite filter_loop_two. cbn [rbind fst snd app].
    intros [= <-]. eexists. split; [|by split].
    apply (filter_app_complement (λ s, filter_matches f0 f1 s = true)).
Qed.

Lemma extend_defined d tbs rs filters :
  filters = [] ∨ (2 ≤ length filters)%nat →
  ∃ lists, _extend_to_be_sorted_and_rest (Some d) tbs rs filters = Ok lists.
Proof.
  unfold _extend_to_be_sorted_and_rest.
  destruct filters as [|f0 [|f1 more]]; cbn [truthy rbind length].
  - by eauto.
  - intros [?|?]; [done|lia].
  - intros _. unfold filterSongs. rewrite filter_loop_two. cbn [rbind]. by eauto.
Qed.

Lemma extend_one_filter s d tbs rs f :
  _extend_to_be_sorted_and_rest (Some (s :: d)) tbs rs [f] = Raise IndexError.
Proof. done. Qed.

Section Pool.
Context {configuration : Providers}.

Lemma unknown_providers_cons p providers :
  length (unknown_providers (p :: providers))
  = ((if recognised p then 0 else 1) + length (unknown_providers providers))%nat.
Proof.
  unfold unknown_providers. rewrite filter_cons.
  destruct (recognised p); [by rewrite decide_False|by rewrite decide_True].
Qed.

Lemma query_provider_Ok filters q p st st' :
  query_provider filters q p st = Ok st' →
  ∃ l, l ≡ₚ provider_answer q p
       ∧ (filters = [] → l = provider_answer q p)
       ∧ st' = mk_pool (to_be_sorted st ++ l) (rest st ++ l)
                 (broken_provider_counter st + (if recognised p then 0 else 1)).
Proof.
  unfold query_provider, provider_answer, recognised.
  destruct (GET_METADATA_ACTIONS !! p) as [action|].
  - destruct (action q) as [[|song more]|].
    + intros [= <-]. exists []. rewrite !app_nil_r, Nat.add_0_r. by destruct st.
    + destruct (_extend_to_be_sorted_and_rest _ _ _ _) as [lists|] eqn:Hext; [|done].
      cbn [rbind]. intros [= <-].
      apply extend_Ok in Hext as (l & Hl & -> & Hfil).
      exists l. by rewrite Nat.add_0_r.
    + intros [= <-]. exists []. rewrite !app_nil_r, Nat.add_0_r. by destruct st.
  - intros [= <-]. exists []. by rewrite !app_nil_r.
Qed.

Lemma query_provider_defined filters q p st :
  filters = [] ∨ (2 ≤ length filters)%nat → ∃ st', query_provider filters q p st = Ok st'.
Proof.
  intros Hf. unfold query_provider.
  destruct (GET_METADATA_ACTIONS !! p) as [action|]; [|by eauto].
  destruct (action q) as [[|song more]|]; [by eauto| |by eauto].
  destruct (extend_defined (song :: more) (to_be_sorted st) (rest st) filters Hf)
    as [lists ->].
  by eauto.
Qed.

Lemma providers_Ok filters q providers st st' :
  for_each (query_provider filters q) providers st = Ok st' →
  ∃ l, l ≡ₚ providers ≫= provider_answer q
       ∧ (filters = [] → l = providers ≫= provider_answer q)
       ∧ st' = mk_pool (to_be_sorted st ++ l) (rest st ++ l)
                 (broken_provider_counter st + length (unknown_providers providers)).
Proof.
  revert st. induction providers as [|p providers IH]; intros st; cbn [for_each].
  - intros [= <-]. exists []. rewrite !app_nil_r. cbn. rewrite Nat.add_0_r. by destruct st.
  - destruct (query_provider filters q p st) as [st1|] eqn:Hq; [|done]. cbn [rbind].
    intros Hrest.
    apply query_provider_Ok in Hq as (l1 & Hl1 & Hf1 & ->).
    apply IH in Hrest as (l2 & Hl2 & Hf2 & ->). cbn [to_be_sorted rest broken_provider_counter].
    exists (l1 ++ l2). rewrite bind_cons. split; [by rewrite Hl1, Hl2|]. split.
    + intros Hf. by rewrite Hf1, Hf2.
    + rewrite unknown_providers_cons, <- !app_assoc. f_equal. lia.
Qed.

Lemma providers_defined filters q providers st :
  filters = [] ∨ (2 ≤ length filters)%nat →
  ∃ st', for_each (query_provider filters q) providers st = Ok st'.
Proof.
  intros Hf. revert st. induction providers as [|p providers IH]; intros st; cbn [for_each].
  - by eauto.
  - destruct (query_provider_defined filters q p st Hf) as [st1 ->]. cbn [rbind]. apply IH.
Qed.

Lemma variants_Ok filters variants st st' :
  for_each (λ q, for_each (query_provider filters q) METADATA_PROVIDERS) variants st
  = Ok st' →
  ∃ l, l ≡ₚ all_answers variants
       ∧ (filters = [] → l = all_answers variants)
       ∧ st' = mk_pool (to_be_sorted st ++ l) (rest st ++ l)
                 (broken_provider_counter st
                  + length variants * length (unknown_providers METADATA_PROVIDERS)).
Proof.
  unfold all_answers.
  revert st. induction variants as [|q variants IH]; intros st; cbn [for_each].
  - intros [= <-]. exists []. rewrite !app_nil_r. cbn. rewrite Nat.add_0_r. by destruct st.
  - destruct (for_each (query_provider filters q) METADATA_PROVIDERS st) as [st1|] eqn:Hq;
      [|done].
    cbn [rbind]. intros Hrest.
    apply providers_Ok in Hq as (l1 & Hl1 & Hf1 & ->).
    apply IH in Hrest as (l2 & Hl2 & Hf2 & ->). cbn [to_be_sorted rest broken_provider_counter].
    exists (l1 ++ l2). rewrite bind_cons. split; [by rewrite Hl1, Hl2|]. split.
    + intros Hf. by rewrite Hf1, Hf2.
    + rewrite <- !app_assoc. f_equal. cbn [length]. lia.
Qed.

Lemma variants_defined filters variants st :
  filters = [] ∨ (2 ≤ length filters)%nat →
  ∃ st', for_each (λ q, for_each (query_provider filters q) METADATA_PROVIDERS) variants st
         = Ok st'.
Proof.
  intros Hf. revert st. induction variants as [|q variants IH]; intros st; cbn [for_each].
  - by eauto.
  - destruct (providers_defined filters q METADATA_PROVIDERS st Hf) as [st1 ->].
    cbn [rbind]. apply IH.
Qed.

Lemma aggregate_Ok filters variants st :
  aggregate filters variants = Ok st →
  to_be_sorted st ≡ₚ all_answers variants
  ∧ rest st = to_be_sorted st
  ∧ broken_provider_counter st
    = (length variants * length (unknown_providers METADATA_PROVIDERS))%nat
  ∧ (filters = [] → to_be_sorted st = all_answers variants).
Proof.
  unfold aggregate. intros (l & Hl & Hf & ->)%variants_Ok.
  cbn [to_be_sorted rest broken_provider_counter app]. by eauto.
Qed.

Lemma aggregate_defined filters variants :
  filters = [] ∨ (2 ≤ length filters)%nat → ∃ st, aggregate filters variants = Ok st.
Proof. apply variants_defined. Qed.

(** X8: whatever the filters, when the two loops over variants and
    providers end without exception, the pool holds exactly the songs the
    recognised providers answered (each as often as it was answered), the
    list [rest] is equal to the pool, and the counter of unknown providers
    is the number of variants times the number of unknown names.  The loops
    do end without exception when [filters] is empty or has two elements or
    more; with an empty [filters] the pool is in the order of the answers. *)
Theorem pool_is_all_answers filters variants :
  (∀ st, aggregate filters variants = Ok st →
         to_be_sorted st ≡ₚ all_answers variants
         ∧ rest st = to_be_sorted st
         ∧ broken_provider_counter st
           = (length variants * length (unknown_providers METADATA_PROVIDERS))%nat)
  ∧ (filters = [] ∨ (2 ≤ length filters)%nat → ∃ st, aggregate filters variants = Ok st)
  ∧ (filters = [] →
     aggregate filters variants
     = Ok (mk_pool (all_answers variants) (all_answers variants)
             (length variants * length (unknown_providers METADATA_PROVIDERS)))).
Proof.
  split; [|split].
  - intros st Hst. apply aggregate_Ok in Hst. tauto.
  - apply aggregate_defined.
  - intros Hf. destruct (aggregate_defined filters variants (or_introl Hf)) as [st Hst].
    rewrite Hst. apply aggregate_Ok in Hst as (_ & Hr & Hc & Ht).
    destruct st as [t r c]. cbn in *. rewrite Hr, Hc, (Ht Hf). done.
Qed.

Lemma providers_one_filter f q providers st :
  providers ≫= provider_answer q ≠ [] →
  for_each (query_provider [f] q) providers st = Raise IndexError.
Proof.
  revert st. induction providers as [|p providers IH]; intros st; [done|].
  rewrite bind_cons. intros Hne. cbn [for_each].
  unfold query_provider at 1. unfold provider_answer at 1 in Hne.
  destruct (GET_METADATA_ACTIONS !! p) as [action|].
  - destruct (action q) as [[|song more]|]; cbn [rbind]; [by apply IH|done|by apply IH].
  - cbn [rbind]. by apply IH.
Qed.

Lemma variants_one_filter f variants st :
  all_answers variants ≠ [] →
  for_each (λ q, for_each (query_provider [f] q) METADATA_PROVIDERS) variants st
  = Raise IndexError.
Proof.
  unfold all_answers.
  revert st. induction variants as [|q variants IH]; intros st; [done|].
  rewrite bind_cons. intros Hne. cbn [for_each].
  destruct (decide (METADATA_PROVIDERS ≫= provider_answer q = [])) as [Hnil|Hq].
  - rewrite Hnil in Hne.
    destruct (for_each (query_provider [f] q) METADATA_PROVIDERS st) as [st1|e] eqn:Hst.
    + cbn [rbind]. by apply IH.
    + exfalso. revert Hst Hnil. generalize METADATA_PROVIDERS. intros providers.
      revert st. induction providers as [|p providers IHp]; intros st; [done|].
      cbn [for_each]. rewrite bind_cons. intros Hst [Hp Hps]%app_eq_nil.
      unfold query_provider at 1 in Hst. unfold provider_answer in Hp.
      destruct (GET_METADATA_ACTIONS !! p) as [action|].
      * destruct (action q) as [[|song more]|]; cbn [rbind] in Hst; [by eapply IHp|done|by eapply IHp].
      * cbn [rbind] in Hst. by eapply IHp.
  - by rewrite providers_one_filter.
Qed.

End Pool.

(** ** Duplicates *)

Section Dedup_more.
Context {H : Type} `{hashing : Hashing H}.

Lemma dedup_loop_seen items seen :
  Forall (λ x, hash x ∈ seen) items → dedup_loop items seen [] = [].
Proof.
  induction items as [|x items IH]; intros Hall; [done|].
  apply Forall_cons in Hall as [Hx Hall].
  rewrite dedup_loop_cons, decide_True by done. by apply IH.
Qed.

Lemma dedup_loop_fresh items seen :
  NoDup (hash <$> items) → Forall (λ x, hash x ∉ seen) items →
  dedup_loop items seen [] = items.
Proof.
  revert seen. induction items as [|x items IH]; intros seen Hnd Hall; [done|].
  rewrite fmap_cons in Hnd. apply NoDup_cons in Hnd as [Hx Hnd].
  apply Forall_cons in Hall as [Hxs Hall].
  rewrite dedup_loop_cons, decide_False by done. f_equal. apply IH; [done|].
  apply Forall_forall. intros y Hy. rewrite Forall_forall in Hall.
  intros [Heq%elem_of_singleton|Hin]%elem_of_union.
  - apply Hx. rewrite <- Heq. by apply list_elem_of_fmap_2.
  - by apply (Hall y Hy).
Qed.

Lemma dedup_loop_append items more seen :
  dedup_loop (items ++ more) seen []
  = dedup_loop items seen []
    ++ dedup_loop more (list_to_set (hash <$> items) ∪ seen) [].
Proof.
  revert seen. induction items as [|x items IH]; intros seen.
  - cbn [app fmap list_fmap list_to_set]. by rewrite (left_id_L ∅ (∪)).
  - rewrite <- app_comm_cons, !dedup_loop_cons, fmap_cons. cbn [list_to_set].
    destruct (decide (hash x ∈ seen)) as [Hx|Hx].
    + rewrite IH. do 2 f_equal. set_solver.
    + rewrite IH, <- app_comm_cons. do 3 f_equal. set_solver.
Qed.

Lemma to_be_sorted_unique_nil items : to_be_sorted_unique items = [] ↔ items = [].
Proof.
  split; [|by intros ->].
  destruct items as [|x items]; [done|]. unfold to_be_sorted_unique.
  rewrite dedup_loop_cons, decide_False by set_solver. done.
Qed.

(** X9: removing duplicates leaves a list without two equal hashes as it
    is; doing it twice is doing it once; and songs appended to the pool
    whose hashes are already in the pool (a second query variant that finds
    the same songs) do not change the result. *)
Theorem dedup_is_stable (items more : list Song) :
  (NoDup (hash <$> items) → to_be_sorted_unique items = items)
  ∧ to_be_sorted_unique (to_be_sorted_unique items) = to_be_sorted_unique items
  ∧ (Forall (λ x, hash x ∈ hash <$> items) more →
     to_be_sorted_unique (items ++ more) = to_be_sorted_unique items)
  ∧ to_be_sorted_unique (items ++ items) = to_be_sorted_unique items.
Proof.
  assert (Hfresh : ∀ l, NoDup (hash <$> l) → to_be_sorted_unique l = l).
  { intros l Hl. apply dedup_loop_fresh; [done|].
    apply Forall_forall. intros x _. set_solver. }
  assert (Happ : ∀ l, Forall (λ x, hash x ∈ hash <$> items) l →
                      to_be_sorted_unique (items ++ l) = to_be_sorted_unique items).
  { intros l Hl. unfold to_be_sorted_unique.
    rewrite dedup_loop_append, (dedup_loop_seen l); [by rewrite app_nil_r|].
    eapply Forall_impl; [exact Hl|]. intros x Hx. simpl.
    apply elem_of_union_l, elem_of_list_to_set. done. }
  split; [apply Hfresh|]. split; [apply Hfresh, dedup_loop_NoDup|]. split; [apply Happ|].
  apply Happ, Forall_forall. intros x Hx. by apply list_elem_of_fmap_2.
Qed.

End Dedup_more.

(** ** What [SEARCH_SONG] returns *)

Section Driver_results.
Context {builtins : Builtins} {imports : Imports} {configuration : Providers}
  {H : Type} `{hashing : Hashing H}.

Lemma SEARCH_SONG_Ok search_by song_name filters disable_sort yt_title r :
  SEARCH_SONG search_by song_name filters disable_sort yt_title = Ok r →
  ∃ pool,
    pool ≡ₚ all_answers (set_order (query_variants search_by yt_title))
    ∧ (filters = [] → pool = all_answers (set_order (query_variants search_by yt_title)))
    ∧ match returned r with
      | None => pool = []
      | Some out =>
          pool ≠ []
          ∧ if disable_sort then out = Plain <$> to_be_sorted_unique pool
            else _search_tokens song_name (to_be_sorted_unique pool) yt_title = Ok out
      end.
Proof.
  unfold SEARCH_SONG.
  destruct (aggregate filters _) as [st|] eqn:Hst; cbn [rbind]; [|done].
  apply aggregate_Ok in Hst as (Hperm & _ & _ & Hf).
  intros Hr. exists (to_be_sorted st). split; [done|]. split; [done|].
  destruct (to_be_sorted_unique (to_be_sorted st)) as [|x unique] eqn:Hu; cbn [truthy negb] in Hr.
  - injection Hr as <-. cbn [returned]. by apply (proj1 (to_be_sorted_unique_nil _)).
  - assert (Hne : to_be_sorted st ≠ []).
    { intros Hnil. by rewrite Hnil in Hu. }
    destruct disable_sort.
    + injection Hr as <-. by cbn [returned].
    + destruct (_search_tokens _ _ _) as [out|] eqn:Hout; cbn [rbind] in Hr; [|done].
      injection Hr as <-. by cbn [returned].
Qed.

(** X10: when [SEARCH_SONG] returns, it returns [None] exactly when no
    recognised provider answered a song for any variant; so a pool in which
    no song reaches the sensitivity gives the empty list, not [None]. *)
Theorem None_only_without_answers search_by song_name filters disable_sort yt_title r :
  SEARCH_SONG search_by song_name filters disable_sort yt_title = Ok r →
  (returned r = None ↔ all_answers (set_order (query_variants search_by yt_title)) = [])
  ∧ (returned r = Some [] →
     disable_sort = false
     ∧ all_answers (set_order (query_variants search_by yt_title)) ≠ []).
Proof.
  intros (pool & Hperm & _ & Hr)%SEARCH_SONG_Ok.
  destruct (returned r) as [out|].
  - destruct Hr as [Hne Hout].
    assert (Hans : all_answers (set_order (query_variants search_by yt_title)) ≠ []).
    { intros Hnil. rewrite Hnil in Hperm. by apply Permutation_nil_r in Hperm. }
    split; [by split|]. intros [= ->]. split; [|done].
    destruct disable_sort; [|done].
    symmetry in Hout. apply fmap_nil_inv in Hout.
    by apply (proj1 (to_be_sorted_unique_nil pool)) in Hout.
  - subst pool. apply Permutation_nil_l in Hperm. by split.
Qed.

(** X11: with sorting enabled, every entry that [SEARCH_SONG] returns is a
    song that a recognised provider answered for one of the variants, with
    its release date cut at the time separator and nothing else changed, and
    its title distance reaches the sensitivity; no two returned entries come
    from pool songs with the same hash. *)
Theorem returned_songs_were_answered search_by song_name filters yt_title r out :
  SEARCH_SONG search_by song_name filters false yt_title = Ok r →
  returned r = Some out →
  (∀ e, e ∈ out →
        ∃ s, s ∈ all_answers (set_order (query_variants search_by yt_title))
             ∧ entry_song e = cut_date s
             ∧ (SEARCH_SENSITIVITY <=? title_dist song_name s)%float = true)
  ∧ ∃ kept, entry_song <$> out ≡ₚ cut_date <$> kept ∧ NoDup (hash <$> kept).
Proof.
  intros (pool & Hperm & _ & Hr)%SEARCH_SONG_Ok Hout. rewrite Hout in Hr.
  destruct Hr as [_ Hst]. apply search_tokens_songs in Hst.
  split.
  - intros e He.
    assert (He' : entry_song e ∈ entry_song <$> out) by by apply list_elem_of_fmap_2.
    rewrite Hst in He'. apply list_elem_of_fmap in He' as (s & -> & Hs).
    apply list_elem_of_filter in Hs as [Hfloor Hs].
    exists s. split; [|done]. rewrite <- Hperm.
    eapply elem_of_sublist; [exact Hs|apply dedup_loop_sublist].
  - eexists. split; [exact Hst|].
    eapply sublist_NoDup; [apply (dedup_loop_NoDup pool ∅)|].
    apply fmap_sublist, sublist_filter.
Qed.

(** X12: with sorting disabled and no filter, [SEARCH_SONG] never raises:
    it returns the answers in the order in which they came, first
    occurrences only, as the providers' records (no score, no sensitivity
    test, release dates untouched), or [None] when there is no answer. *)
Theorem unsorted_result search_by song_name yt_title :
  ∃ critical,
    SEARCH_SONG search_by song_name [] true yt_title
    = Ok (mk_report critical
            (match all_answers (set_order (query_variants search_by yt_title)) with
             | [] => None
             | answers => Some (Plain <$> to_be_sorted_unique answers)
             end)).
Proof.
  unfold SEARCH_SONG.
  destruct (aggregate_defined [] (set_order (query_variants search_by yt_title))
              (or_introl eq_refl)) as [st Hst].
  rewrite Hst. cbn [rbind]. apply aggregate_Ok in Hst as (_ & _ & _ & Hf).
  rewrite (Hf eq_refl). eexists.
  destruct (all_answers _) as [|s answers] eqn:Hans; [done|].
  destruct (to_be_sorted_unique (s :: answers)) as [|x unique] eqn:Hu; [|done].
  by apply (proj1 (to_be_sorted_unique_nil _)) in Hu.
Qed.

(** X13: with sorting enabled, answers of which none reaches the
    sensitivity give the empty list and no exception, whatever their
    release dates: the outcome differs from the [None] of an empty pool. *)
Theorem nothing_passes_gives_empty_list search_by song_name filters yt_title :
  filters = [] ∨ (2 ≤ length filters)%nat →
  all_answers (set_order (query_variants search_by yt_title)) ≠ [] →
  Forall (λ s, (SEARCH_SENSITIVITY <=? title_dist song_name s)%float = false)
         (all_answers (set_order (query_variants search_by yt_title))) →
  ∃ critical,
    SEARCH_SONG search_by song_name filters false yt_title
    = Ok (mk_report critical (Some [])).
Proof.
  intros Hf Hne Hall. unfold SEARCH_SONG.
  destruct (aggregate_defined filters (set_order (query_variants search_by yt_title)) Hf)
    as [st Hst].
  rewrite Hst. cbn [rbind]. apply aggregate_Ok in Hst as (Hperm & _ & _ & _).
  destruct (to_be_sorted_unique (to_be_sorted st)) as [|x unique] eqn:Hu.
  { apply (proj1 (to_be_sorted_unique_nil _)) in Hu. rewrite Hu in Hperm.
    by apply Permutation_nil_l in Hperm. }
  cbn [truthy negb]. rewrite <- Hu, search_tokens_nothing_passes; [by eexists|].
  apply Forall_forall. intros s Hs. rewrite Forall_forall in Hall. apply Hall.
  rewrite <- Hperm. eapply elem_of_sublist; [exact Hs|apply dedup_loop_sublist].
Qed.

(** X14: a [filters] list with one element makes [SEARCH_SONG] raise
    [IndexError] as soon as one recognised provider answers a song for one
    variant, with or without sorting. *)
Theorem one_filter_raises search_by song_name f disable_sort yt_title :
  all_answers (set_order (query_variants search_by yt_title)) ≠ [] →
  SEARCH_SONG search_by song_name [f] disable_sort yt_title = Raise IndexError.
Proof.
  intros Hne. unfold SEARCH_SONG, aggregate. by rewrite variants_one_filter.
Qed.

(** X15: the message that no configured provider is implemented is logged
    exactly when the number of variants times the number of unknown
    provider names equals the number of configured names: with several
    variants it can be logged although providers are implemented and have
    answered, and it is not logged when all names are unknown. *)
Theorem critical_message_rule search_by song_name filters disable_sort yt_title r :
  SEARCH_SONG search_by song_name filters disable_sort yt_title = Ok r →
  critical_logged r
  = bool_decide ((length (set_order (query_variants search_by yt_title))
                  * length (unknown_providers METADATA_PROVIDERS))%nat
                 = length METADATA_PROVIDERS).
Proof.
  unfold SEARCH_SONG.
  destruct (aggregate filters _) as [st|] eqn:Hst; cbn [rbind]; [|done].
  apply aggregate_Ok in Hst as (_ & _ & -> & _).
  destruct (negb (truthy _)); [by intros [= <-]|].
  destruct disable_sort; [by intros [= <-]|].
  destruct (_search_tokens _ _ _) as [out|]; cbn [rbind]; [|done].
  by intros [= <-].
Qed.

(** X16: [SEARCH_SONG] returns without raising whenever [filters] is empty
    or has at least two elements and every song that the providers answer
    has a release date that is a string, empty or readable in the format
    its length selects. *)
Theorem SEARCH_SONG_does_not_raise search_by song_name filters disable_sort yt_title :
  filters = [] ∨ (2 ≤ length filters)%nat →
  Forall (λ s, date_ok s = true)
         (all_answers (set_order (query_variants search_by yt_title))) →
  ∃ r, SEARCH_SONG search_by song_name filters disable_sort yt_title = Ok r.
Proof.
  intros Hf Hdates. unfold SEARCH_SONG.
  destruct (aggregate_defined filters (set_order (query_variants search_by yt_title)) Hf)
    as [st Hst].
  rewrite Hst. cbn [rbind]. apply aggregate_Ok in Hst as (Hperm & _ & _ & _).
  destruct (negb (truthy _)); [by eexists|].
  destruct disable_sort; [by eexists|].
  destruct (search_tokens_defined song_name (to_be_sorted_unique (to_be_sorted st)) yt_title)
    as [out ->]; [|by eexists].
  apply Forall_forall. intros s Hs. rewrite Forall_forall in Hdates. apply Hdates.
  rewrite <- Hperm. eapply elem_of_sublist; [exact Hs|apply dedup_loop_sublist].
Qed.

End Driver_results.

(** ** The wrappers of the client libraries *)

Section Wrappers.
Context {builtins : Builtins} {imports : Imports} {H : Type} `{hashing : Hashing H}.

(** X17: when every call of a client library raises, the seven wrappers
    turn the exceptions into [None] and [SEARCH_SONG] returns [None] without
    raising, whatever the query, the configured names, the filters (even a
    list with one element) and the sorting flag. *)
Theorem failing_clients_give_None (clients : Clients) (names : list string)
    (order : gset string → list string) search_by song_name filters disable_sort yt_title :
  (∀ q c, ∃ m, itunespy_search_track q c = Failed m) →
  (∀ q, ∃ m, gaana_searchSong q = Failed m) →
  (∀ q, ∃ m, deezer_searchSong q = Failed m) →
  (∀ q, ∃ m, lastfm_searchSong q = Failed m) →
  (∀ q, ∃ m, saavn_search_query q = Failed m) →
  (∀ q, ∃ m, musicbrainz_search_song q = Failed m) →
  (∀ q c, ∃ m, spotify_search_song q c = Failed m) →
  ∃ critical,
    SEARCH_SONG (configuration := wrapped_providers clients names order)
      search_by song_name filters disable_sort yt_title
    = Ok (mk_report critical None).
Proof.
  intros Hit Hga Hde Hla Hsa Hmu Hsp. eexists. apply SEARCH_SONG_without_data.
  intros p action q _ _ Hp. left.
  unfold GET_METADATA_ACTIONS, list_to_map in Hp. cbn [foldr uncurry] in Hp.
  apply lookup_insert_Some in Hp as [[_ <-]|[_ Hp]].
  { cbn. by destruct (Hit q ITUNES_COUNTRY) as [m ->]. }
  apply lookup_insert_Some in Hp as [[_ <-]|[_ Hp]].
  { cbn. by destruct (Hga q) as [m ->]. }
  apply lookup_insert_Some in Hp as [[_ <-]|[_ Hp]].
  { cbn. by destruct (Hde q) as [m ->]. }
  apply lookup_insert_Some in Hp as [[_ <-]|[_ Hp]].
  { cbn. by destruct (Hsa q) as [m ->]. }
  apply lookup_insert_Some in Hp as [[_ <-]|[_ Hp]].
  { cbn. by destruct (Hla q) as [m ->]. }
  apply lookup_insert_Some in Hp as [[_ <-]|[_ Hp]].
  { cbn. by destruct (Hmu q) as [m ->]. }
  apply lookup_insert_Some in Hp as [[_ <-]|[_ Hp]].
  { cbn. by destruct (Hsp q SPOTIFY_COUNTRY) as [m ->]. }
  by rewrite lookup_empty in Hp.
Qed.

End Wrappers.

(** ** Query variants and their words *)

Lemma expansions_length tokens : (length (expansions tokens) ≤ 5)%nat.
Proof.
  unfold expansions. destruct (3 <? length tokens)%nat; [|cbn; lia].
  destruct (5 <? length tokens)%nat; cbn; lia.
Qed.

Lemma size_list_to_set_le (l : list string) :
  (size (list_to_set (C := gset string) l) ≤ length l)%nat.
Proof.
  induction l as [|x l IH]; cbn [list_to_set length].
  - by rewrite size_empty.
  - rewrite size_union_alt, size_singleton.
    assert (size (list_to_set (C := gset string) l ∖ {[x]})
            ≤ size (list_to_set (C := gset string) l))%nat
      by (apply subseteq_size; set_solver).
    lia.
Qed.

Lemma elem_of_expansions tokens v :
  v ∈ expansions tokens →
  ∃ pre ws post,
    tokens = pre ++ ws ++ post ∧ v = join ws ∧ (1 ≤ length ws ≤ 5)%nat
    ∧ (pre = [] ∨ (length pre = 2 ∧ length ws = 2)%nat)
    ∧ (3 < length tokens)%nat.
Proof.
  unfold expansions. destruct (3 <? length tokens)%nat eqn:H3; [|by intros ?%elem_of_nil].
  apply Nat.ltb_lt in H3.
  assert (Htake : ∀ n, (0 < n ≤ 5)%nat →
            ∃ pre ws post,
              tokens = pre ++ ws ++ post ∧ join (take n tokens) = join ws
              ∧ (1 ≤ length ws ≤ 5)%nat
              ∧ (pre = [] ∨ (length pre = 2 ∧ length ws = 2)%nat)
              ∧ (3 < length tokens)%nat).
  { intros n Hn. exists [], (take n tokens), (drop n tokens).
    split; [by rewrite app_nil_l, take_drop|]. split; [done|].
    split; [rewrite length_take; lia|]. split; [by left|done]. }
  intros [Hv|Hv]%elem_of_app.
  - destruct (5 <? length tokens)%nat; [|by apply elem_of_nil in Hv].
    apply list_elem_of_singleton in Hv as ->. apply Htake. lia.
  - repeat (apply elem_of_cons in Hv as [->|Hv]; [apply Htake; lia|]).
    apply elem_of_cons in Hv as [->|Hv]; [|by apply elem_of_nil in Hv].
    exists (take 2 tokens), (take 2 (drop 2 tokens)), (drop 2 (drop 2 tokens)).
    split; [by rewrite !take_drop|]. split; [done|].
    rewrite !length_take, length_drop.
    split; [lia|]. split; [right; lia|done].
Qed.

Section Variants_words.
Context {builtins : Builtins}.

(** X18: the set of query variants has at least one and at most eleven
    elements (the query, at most five strings derived from it and at most
    five from the title hint); so a loop that visits each element of the
    set once runs between one and eleven times.  When neither the query nor
    the hint has more than three words the query is the only variant. *)
Theorem at_most_eleven_variants (search_by yt_title : string) :
  (1 ≤ size (query_variants search_by yt_title) ≤ 11)%nat
  ∧ (∀ order : gset string → list string,
       order (query_variants search_by yt_title)
       ≡ₚ elements (query_variants search_by yt_title) →
       (1 ≤ length (order (query_variants search_by yt_title)) ≤ 11)%nat)
  ∧ ((length (split search_by) ≤ 3)%nat → (length (split yt_title) ≤ 3)%nat →
     query_variants search_by yt_title = {[search_by]}).
Proof.
  assert (Hsize : (1 ≤ size (query_variants search_by yt_title) ≤ 11)%nat).
  { split.
    - assert (Hin : {[search_by]} ⊆ query_variants search_by yt_title).
      { rewrite query_variants_union. set_solver. }
      apply subseteq_size in Hin. by rewrite size_singleton in Hin.
    - unfold query_variants. etrans; [apply size_list_to_set_le|].
      unfold search_by_query_names_array. rewrite !length_app. cbn [length].
      pose proof (expansions_length (split search_by)).
      pose proof (expansions_length (split yt_title)).
      destruct (String.eqb yt_title search_by); cbn [length]; lia. }
  split; [done|]. split.
  - intros order Horder. by rewrite Horder.
  - intros Hq Hh. unfold query_variants, search_by_query_names_array, expansions.
    apply Nat.ltb_ge in Hq, Hh. rewrite Hq, Hh.
    destruct (String.eqb yt_title search_by); cbn; set_solver.
Qed.

(** X19: every variant other than the query itself is made of consecutive
    words of the query, or of the title hint when it differs from the
    query, joined by single blanks: between one and five words, which are
    the leading words of the text or its third and fourth words, and the
    text has more than three words. *)
Theorem variants_are_made_of_words (search_by yt_title v : string) :
  v ∈ query_variants search_by yt_title →
  v = search_by
  ∨ ∃ s pre ws post,
      (s = search_by ∨ (s = yt_title ∧ yt_title ≠ search_by))
      ∧ split s = pre ++ ws ++ post ∧ v = join ws ∧ (1 ≤ length ws ≤ 5)%nat
      ∧ (pre = [] ∨ (length pre = 2 ∧ length ws = 2)%nat)
      ∧ (3 < length (split s))%nat.
Proof.
  rewrite query_variants_union. unfold hint_variants.
  intros [[Hv|Hv]%elem_of_union|Hv]%elem_of_union.
  - left. by apply elem_of_singleton in Hv.
  - right. apply elem_of_list_to_set, elem_of_expansions in Hv
      as (pre & ws & post & ? & ? & ? & ? & ?).
    exists search_by, pre, ws, post. by eauto 10.
  - right. destruct (String.eqb_spec yt_title search_by) as [|Hne];
      [by apply elem_of_empty in Hv|].
    apply elem_of_list_to_set, elem_of_expansions in Hv
      as (pre & ws & post & ? & ? & ? & ? & ?).
    exists yt_title, pre, ws, post. by eauto 10.
Qed.

End Variants_words.

(** ** The further properties on explicit inputs *)

Lemma promote_all_undated_witness :
  promote [mk_scored song_a 1 0 0 0; mk_scored song_e 1 0 0 0; mk_scored song_f 1 0 0 0]
  = Ok [mk_scored song_f 1 0 0 0; mk_scored song_a 1 0 0 0; mk_scored song_e 1 0 0 0].
Proof.
  apply (promote_all_undated
           [mk_scored song_a 1 0 0 0; mk_scored song_e 1 0 0 0; mk_scored song_f 1 0 0 0]
           (mk_scored song_f 1 0 0 0)).
  - repeat constructor.
  - reflexivity.
Defined.

Lemma promote_dated_top_stays_witness :
  promote [mk_scored song_b 1 0 0 0; mk_scored song_a 1 0 0 0; mk_scored song_e 1 0 0 0]
  = Ok [mk_scored song_b 1 0 0 0; mk_scored song_a 1 0 0 0; mk_scored song_e 1 0 0 0].
Proof.
  apply (promote_dated_top_stays (mk_scored song_b 1 0 0 0)
           [mk_scored song_a 1 0 0 0; mk_scored song_e 1 0 0 0]).
  - reflexivity.
  - repeat constructor.
Defined.

Lemma sort_keeps_ties_in_order_witness :
  filter (λ e, same_key (mk_scored song_a 1 0 0 0) e = true)
    (sort_desc [mk_scored song_d 0.5 0 0 0; mk_scored song_a 1 0 0 0;
                mk_scored song_b 2 0 0 0; mk_scored song_e 1 0 0 0])
  = [mk_scored song_a 1 0 0 0; mk_scored song_e 1 0 0 0].
Proof.
  destruct (sort_keeps_ties_in_order
              [mk_scored song_d 0.5 0 0 0; mk_scored song_a 1 0 0 0;
               mk_scored song_b 2 0 0 0; mk_scored song_e 1 0 0 0]) as (Hstable & _).
  - repeat (apply Forall_cons; split; [vm_compute; reflexivity|]). by apply Forall_nil.
  - rewrite (Hstable (mk_scored song_a 1 0 0 0)); [|vm_compute; reflexivity].
    vm_compute. reflexivity.
Defined.


Lemma returned_dates_have_no_time_witness :
  _search_tokens (builtins := ascii_builtins) (imports := sample_imports) "love song" [song_c] ""
  = Ok [Plain (set_release_date song_c "1999-01-01")]
  ∧ Forall (λ c, c ≠ "T"%char) (list_ascii_of_string "1999-01-01").
Proof.
  assert (Hout : _search_tokens (builtins := ascii_builtins) (imports := sample_imports) "love song" [song_c] ""
                 = Ok [Plain (set_release_date song_c "1999-01-01")]).
  { vm_compute. reflexivity. }
  split; [exact Hout|].
  destruct (returned_dates_have_no_time (builtins := ascii_builtins) (imports := sample_imports) _ _ _ _ Hout)
    as (Hdates & _).
  apply (Hdates (Plain (set_release_date song_c "1999-01-01")) "1999-01-01");
    [by left|reflexivity].
Defined.

Lemma None_only_without_answers_witness :
  SEARCH_SONG (builtins := ascii_builtins) (imports := sample_imports) (configuration := answering_config)
    (hashing := track_artist_hashing) "love song" "love song" [] false ""
  = Ok (mk_report false (Some [Plain song_b]))
  ∧ all_answers (configuration := answering_config)
      (set_order (Providers := answering_config) (query_variants (builtins := ascii_builtins) "love song" "")) ≠ [].
Proof.
  assert (Hr : SEARCH_SONG (builtins := ascii_builtins) (imports := sample_imports) (configuration := answering_config)
                 (hashing := track_artist_hashing) "love song" "love song" [] false ""
               = Ok (mk_report false (Some [Plain song_b]))).
  { vm_compute. reflexivity. }
  split; [exact Hr|].
  destruct (None_only_without_answers (builtins := ascii_builtins) (imports := sample_imports)
              (configuration := answering_config) (hashing := track_artist_hashing)
              _ _ _ _ _ _ Hr) as [[_ Hnone] _].
  intros Hnil. discriminate (Hnone Hnil).
Defined.

Lemma returned_songs_were_answered_witness :
  ∃ s, s ∈ all_answers (configuration := answering_config)
             (set_order (Providers := answering_config) (query_variants (builtins := ascii_builtins) "love song" ""))
       ∧ song_b = cut_date s
       ∧ (SEARCH_SENSITIVITY (Imports := sample_imports)
          <=? title_dist (builtins := ascii_builtins) (imports := sample_imports) "love song" s)%float = true.
Proof.
  assert (Hr : SEARCH_SONG (builtins := ascii_builtins) (imports := sample_imports) (configuration := answering_config)
                 (hashing := track_artist_hashing) "love song" "love song" [] false ""
               = Ok (mk_report false (Some [Plain song_b]))).
  { vm_compute. reflexivity. }
  destruct (returned_songs_were_answered (builtins := ascii_builtins) (imports := sample_imports)
              (configuration := answering_config) (hashing := track_artist_hashing)
              _ _ _ _ _ [Plain song_b] Hr eq_refl) as [Hsound _].
  apply (Hsound (Plain song_b)). by left.
Defined.

Lemma nothing_passes_gives_empty_list_witness :
  ∃ critical,
    SEARCH_SONG (builtins := ascii_builtins) (imports := sample_imports) (configuration := answering_config)
      (hashing := track_artist_hashing) "love song" "zzz" [] false ""
    = Ok (mk_report critical (Some [])).
Proof.
  assert (Hanswers : all_answers (configuration := answering_config)
                       (set_order (Providers := answering_config)
                          (query_variants (builtins := ascii_builtins) "love song" ""))
                     = [song_b; song_d; song_c]).
  { vm_compute. reflexivity. }
  apply (nothing_passes_gives_empty_list (builtins := ascii_builtins) (imports := sample_imports)
           (configuration := answering_config) (hashing := track_artist_hashing)).
  - by left.
  - by rewrite Hanswers.
  - rewrite Hanswers. repeat (apply Forall_cons; split; [vm_compute; reflexivity|]).
    apply Forall_nil. done.
Defined.

Lemma one_filter_raises_witness :
  SEARCH_SONG (builtins := ascii_builtins) (imports := sample_imports) (configuration := answering_config)
    (hashing := track_artist_hashing) "love song" "love song" [Some "Band"] false ""
  = Raise IndexError.
Proof.
  apply (one_filter_raises (builtins := ascii_builtins) (imports := sample_imports)
           (configuration := answering_config) (hashing := track_artist_hashing)).
  vm_compute. discriminate.
Defined.

Lemma failing_clients_give_None_witness :
  ∃ critical,
    SEARCH_SONG (builtins := ascii_builtins) (imports := sample_imports)
      (configuration := wrapped_providers failing_clients ["itunes"; "gaana"] elements)
      (hashing := track_artist_hashing) "love song" "love song" [None] true ""
    = Ok (mk_report critical None).
Proof.
  apply (failing_clients_give_None (builtins := ascii_builtins) (imports := sample_imports)
           (hashing := track_artist_hashing) failing_clients);
    intros; by eexists.
Defined.

Lemma variants_are_made_of_words_witness :
  "c d" = "a b c d"
  ∨ ∃ s pre ws post,
      (s = "a b c d" ∨ (s = "" ∧ "" ≠ "a b c d"))
      ∧ split (Builtins := ascii_builtins) s = pre ++ ws ++ post ∧ "c d" = join ws
      ∧ (1 ≤ length ws ≤ 5)%nat
      ∧ (pre = [] ∨ (length pre = 2 ∧ length ws = 2)%nat)
      ∧ (3 < length (split (Builtins := ascii_builtins) s))%nat.
Proof.
  apply (variants_are_made_of_words (builtins := ascii_builtins) "a b c d" "" "c d").
  apply (bool_decide_unpack _). vm_compute. exact I.
Defined.

Lemma critical_message_rule_witness :
  SEARCH_SONG (builtins := ascii_builtins) (imports := sample_imports) (configuration := mixed_config)
    (hashing := track_artist_hashing) "love song of mine" "love song" [] false ""
  = Ok (mk_report true (Some [Plain song_b]))
  ∧ true
    = bool_decide
        ((length (set_order (Providers := mixed_config)
                    (query_variants (builtins := ascii_builtins) "love song of mine" ""))
          * length (unknown_providers (configuration := mixed_config)
                      (METADATA_PROVIDERS (Providers := mixed_config))))%nat
         = length (METADATA_PROVIDERS (Providers := mixed_config))).
Proof.
  assert (Hr : SEARCH_SONG (builtins := ascii_builtins) (imports := sample_imports) (configuration := mixed_config)
                 (hashing := track_artist_hashing) "love song of mine" "love song" [] false ""
               = Ok (mk_report true (Some [Plain song_b]))).
  { vm_compute. reflexivity. }
  split; [exact Hr|].
  exact (critical_message_rule (builtins := ascii_builtins) (imports := sample_imports) (configuration := mixed_config)
           (hashing := track_artist_hashing) _ _ _ _ _ _ Hr).
Defined.

Lemma SEARCH_SONG_does_not_raise_witness :
  ∃ r, SEARCH_SONG (builtins := ascii_builtins) (imports := sample_imports) (configuration := answering_config)
         (hashing := track_artist_hashing) "love song" "love song"
         [Some "Band"; None] false "Band"
       = Ok r.
Proof.
  assert (Hanswers : all_answers (configuration := answering_config)
                       (set_order (Providers := answering_config)
                          (query_variants (builtins := ascii_builtins) "love song" "Band"))
                     = [song_b; song_d; song_c]).
  { vm_compute. reflexivity. }
  apply (SEARCH_SONG_does_not_raise (builtins := ascii_builtins) (imports := sample_imports)
           (configuration := answering_config) (hashing := track_artist_hashing)).
  - right. cbn [length]. lia.
  - rewrite Hanswers. repeat (apply Forall_cons; split; [vm_compute; reflexivity|]).
    apply Forall_nil. done.
Defined.
